(** * ServerConfig: validation and debounce control logic

    A shallow embedding of [src/components/views/auth/ServerConfig.js].

    The component instance ([this]) together with the part of the JavaScript
    environment it talks to (pending timers, in-flight discovery calls, the
    clock) is a record [World].  Every method of the class is a function on
    worlds.  Side effects that leave the component (calls to the discovery
    collaborator, to the owner's callbacks, to the console, to the timer API)
    are appended to a chronological [trace].

    The event loop is single threaded: a handler runs until it returns or
    reaches an [await] on a pending promise.  The code after an [await] is a
    separate function (suffix [_resume]) that runs when the awaited promise
    settles.  Promise continuations are microtasks and run before any other
    event is dispatched, so a chain of continuations is executed inside the
    step that settles the promise. *)

From Stdlib Require Import String List Bool Arith Lia.
Import ListNotations.
Open Scope string_scope.
Open Scope list_scope.

(** ** Data *)

Module ValidatedServerConfig.
(** Modelled from the spec: the class [ValidatedServerConfig] is declared
    in [utils/AutoDiscoveryUtils]; the spec gives its shape as
    [{ hsUrl: string, isUrl: string, ...validated fields }].  The fields
    the component never reads are kept as one opaque payload. *)
Record t : Set := mk { hsUrl : string; isUrl : string; validated : string }.

Definition eqb (a b : t) : bool :=
  String.eqb (hsUrl a) (hsUrl b) && String.eqb (isUrl a) (isUrl b)
  && String.eqb (validated a) (validated b).
End ValidatedServerConfig.

(** The error object the [catch] block of [validateAndApplyServer] receives:
    the one a failed discovery call rejects with, or the one the owner's
    callback throws inside the [try].  The component reads only its
    [translatedMessage] property, which may be absent. *)
Record DiscoveryError : Set := {
  translatedMessage : option string;
  rawError : string
}.

(** JavaScript truthiness of an optional string property: [undefined] and
    the empty string are falsy. *)
Definition truthy_string (v : option string) : bool :=
  match v with
  | Some s => negb (String.eqb s "")
  | None => false
  end.

(** JavaScript truthiness of a timer handle: [undefined] and [0] are falsy. *)
Definition truthy_id (v : option nat) : bool :=
  match v with
  | Some (S _) => true
  | _ => false
  end.

(** [this.state] *)
Record State : Set := {
  busy : bool;
  errorText : string;
  hsUrl : string;
  isUrl : string
}.

(** The argument of [this.setState]: the keys that are present. *)
Record Patch : Set := {
  set_busy : option bool;
  set_errorText : option string;
  set_hsUrl : option string;
  set_isUrl : option string
}.

Definition merge {A : Type} (new : option A) (old : A) : A :=
  match new with
  | Some v => v
  | None => old
  end.

Definition apply_patch (p : Patch) (s : State) : State :=
  {| busy := merge (set_busy p) (busy s);
     errorText := merge (set_errorText p) (errorText s);
     hsUrl := merge (set_hsUrl p) (hsUrl s);
     isUrl := merge (set_isUrl p) (isUrl s) |}.

(** [this.props].  [onServerConfigChange] is required and is observed through
    the trace; [onAfterSubmit] is optional and the field says whether it was
    supplied. *)
Record Props : Set := {
  serverConfig : ValidatedServerConfig.t;
  delayTimeMs : nat;
  onAfterSubmit : bool
}.

(** How the [try] block of [validateAndApplyServer] goes on once the
    discovery promise has settled: the promise is fulfilled and the call of
    [onServerConfigChange] that follows returns ([Resolved]); the promise is
    rejected ([Rejected]); the promise is fulfilled and the call of
    [onServerConfigChange] throws ([OwnerThrew]). *)
Inductive Settled : Set :=
| Resolved (result : ValidatedServerConfig.t)
| Rejected (e : DiscoveryError)
| OwnerThrew (result : ValidatedServerConfig.t) (thrown : DiscoveryError).

(** Effects that are visible outside the component, in the order the code
    performs them. *)
Inductive Effect : Set :=
| SetState (p : Patch)
| ValidateStaticUrls (pid : nat) (hsU isU : string)
| ServerConfigChange (c : ValidatedServerConfig.t)
| ConsoleError (e : DiscoveryError)
| AfterSubmit
| SetTimeout (tid delay : nat)
| ClearTimeout (tid : nat)
| PreventDefault
| StopPropagation.

(** Who awaits the promise returned by [validateAndApplyServer]: the timer
    callbacks and [componentWillReceiveProps] drop it, [onSubmit] awaits it. *)
Inductive Awaiter : Set :=
| Dropped
| SubmitHandler.

(** A discovery call that has not settled yet. *)
Record Call : Set := {
  pid : nat;
  call_hsUrl : string;
  call_isUrl : string;
  awaiter : Awaiter
}.

(** A pending timer.  Both blur handlers schedule the same callback,
    [() => { this.validateServer(); }]. *)
Record Timer : Set := {
  tid : nat;
  due : nat
}.

Record World : Set := {
  state : State;
  props : Props;
  _hsTimeoutId : option nat;
  _isTimeoutId : option nat;
  timers : list Timer;
  nextTimer : nat;
  now : nat;
  inflight : list Call;
  nextCall : nat;
  trace : list Effect
}.

(** What a call of an async function hands back to its caller when control
    returns: a promise that is already fulfilled, or one that waits for the
    discovery call [pid]. *)
Inductive Started : Set :=
| Returned (result : option ValidatedServerConfig.t)
| Suspended (pid : nat).

(** ** Primitive operations on the world *)

Definition emit (e : Effect) (w : World) : World :=
  {| state := state w; props := props w;
     _hsTimeoutId := _hsTimeoutId w; _isTimeoutId := _isTimeoutId w;
     timers := timers w; nextTimer := nextTimer w; now := now w;
     inflight := inflight w; nextCall := nextCall w;
     trace := trace w ++ [e] |}.

Definition setState (p : Patch) (w : World) : World :=
  {| state := apply_patch p (state w); props := props w;
     _hsTimeoutId := _hsTimeoutId w; _isTimeoutId := _isTimeoutId w;
     timers := timers w; nextTimer := nextTimer w; now := now w;
     inflight := inflight w; nextCall := nextCall w;
     trace := trace w ++ [SetState p] |}.

Definition with_timers (ts : list Timer) (w : World) : World :=
  {| state := state w; props := props w;
     _hsTimeoutId := _hsTimeoutId w; _isTimeoutId := _isTimeoutId w;
     timers := ts; nextTimer := nextTimer w; now := now w;
     inflight := inflight w; nextCall := nextCall w;
     trace := trace w |}.

Definition with_inflight (cs : list Call) (w : World) : World :=
  {| state := state w; props := props w;
     _hsTimeoutId := _hsTimeoutId w; _isTimeoutId := _isTimeoutId w;
     timers := timers w; nextTimer := nextTimer w; now := now w;
     inflight := cs; nextCall := nextCall w;
     trace := trace w |}.

Definition with_hsTimeoutId (v : option nat) (w : World) : World :=
  {| state := state w; props := props w;
     _hsTimeoutId := v; _isTimeoutId := _isTimeoutId w;
     timers := timers w; nextTimer := nextTimer w; now := now w;
     inflight := inflight w; nextCall := nextCall w;
     trace := trace w |}.

Definition with_isTimeoutId (v : option nat) (w : World) : World :=
  {| state := state w; props := props w;
     _hsTimeoutId := _hsTimeoutId w; _isTimeoutId := v;
     timers := timers w; nextTimer := nextTimer w; now := now w;
     inflight := inflight w; nextCall := nextCall w;
     trace := trace w |}.

Definition with_props (p : Props) (w : World) : World :=
  {| state := state w; props := p;
     _hsTimeoutId := _hsTimeoutId w; _isTimeoutId := _isTimeoutId w;
     timers := timers w; nextTimer := nextTimer w; now := now w;
     inflight := inflight w; nextCall := nextCall w;
     trace := trace w |}.

Definition advance (d : nat) (w : World) : World :=
  {| state := state w; props := props w;
     _hsTimeoutId := _hsTimeoutId w; _isTimeoutId := _isTimeoutId w;
     timers := timers w; nextTimer := nextTimer w; now := now w + d;
     inflight := inflight w; nextCall := nextCall w;
     trace := trace w |}.

(** [clearTimeout(id)]: the timer, if still pending, never fires. *)
Definition clearTimeout (id : nat) (w : World) : World :=
  emit (ClearTimeout id)
       (with_timers (filter (fun t => negb (Nat.eqb (tid t) id)) (timers w)) w).

(** [setTimeout(fn, delay)]: a fresh handle, due [delay] after now. *)
Definition setTimeout (delay : nat) (w : World) : World * nat :=
  let id := nextTimer w in
  let w1 := with_timers (timers w ++ [{| tid := id; due := now w + delay |}]) w in
  ({| state := state w1; props := props w1;
      _hsTimeoutId := _hsTimeoutId w1; _isTimeoutId := _isTimeoutId w1;
      timers := timers w1; nextTimer := S id; now := now w1;
      inflight := inflight w1; nextCall := nextCall w1;
      trace := trace w1 ++ [SetTimeout id delay] |}, id).

(** [AutoDiscoveryUtils.validateServerConfigWithStaticUrls(hsUrl, isUrl)]:
    the call is recorded and a pending promise is handed back. *)
Definition validateServerConfigWithStaticUrls
    (hsU isU : string) (k : Awaiter) (w : World) : World * nat :=
  let id := nextCall w in
  let c := {| pid := id; call_hsUrl := hsU; call_isUrl := isU; awaiter := k |} in
  ({| state := state w; props := props w;
      _hsTimeoutId := _hsTimeoutId w; _isTimeoutId := _isTimeoutId w;
      timers := timers w; nextTimer := nextTimer w; now := now w;
      inflight := inflight w ++ [c]; nextCall := S id;
      trace := trace w ++ [ValidateStaticUrls id hsU isU] |}, id).

(** ** The component *)

(** [constructor(props)] *)
Definition constructor (p : Props) : World :=
  {| state := {| busy := false;
                 errorText := "";
                 hsUrl := ValidatedServerConfig.hsUrl (serverConfig p);
                 isUrl := ValidatedServerConfig.isUrl (serverConfig p) |};
     props := p;
     _hsTimeoutId := None; _isTimeoutId := None;
     timers := []; nextTimer := 1; now := 0;
     inflight := []; nextCall := 0;
     trace := [] |}.

Definition fallback_message : string :=
  "Unable to validate homeserver/identity server".

Section Component.

(** [SdkConfig.get()["validated_server_config"]], read-only for the
    component. *)
Variable defaultConfig : ValidatedServerConfig.t.

(** The translation function of [languageHandler]. *)
Variable _t : string -> string.

Definition is_default (hsU isU : string) : bool :=
  String.eqb (ValidatedServerConfig.hsUrl defaultConfig) hsU
  && String.eqb (ValidatedServerConfig.isUrl defaultConfig) isU.

(** [validateAndApplyServer(hsUrl, isUrl)] up to its [await].  On the fast
    path [onServerConfigChange] is called outside the [try]: a callback that
    throws there leaves the routine as a rejected promise, and the model
    covers the runs in which that call returns. *)
Definition validateAndApplyServer
    (hsU isU : string) (k : Awaiter) (w : World) : World * Started :=
  if is_default hsU isU then
    let w1 := setState {| set_busy := Some false; set_errorText := Some "";
                          set_hsUrl := None; set_isUrl := None |} w in
    let w2 := emit (ServerConfigChange defaultConfig) w1 in
    (w2, Returned (Some defaultConfig))
  else
    let w1 := setState {| set_busy := Some true; set_errorText := Some "";
                          set_hsUrl := Some hsU; set_isUrl := Some isU |} w in
    let (w2, id) := validateServerConfigWithStaticUrls hsU isU k w1 in
    (w2, Suspended id).

(** The message the [catch] block computes. *)
Definition failure_message (e : DiscoveryError) : string :=
  let message := _t fallback_message in
  if truthy_string (translatedMessage e) then
    match translatedMessage e with
    | Some m => m
    | None => message
    end
  else message.

(** [validateAndApplyServer] from its [await] on: the [try] continuation
    when the discovery promise is fulfilled, the [catch] block when it is
    rejected, and the [try] continuation up to the call of
    [onServerConfigChange] followed by the [catch] block when that call,
    which is inside the [try], throws.  The second component is the value
    the async function returns. *)
Definition validateAndApplyServer_resume
    (o : Settled) (w : World) : World * option ValidatedServerConfig.t :=
  match o with
  | Resolved result =>
      let w1 := setState {| set_busy := Some false; set_errorText := Some "";
                            set_hsUrl := None; set_isUrl := None |} w in
      let w2 := emit (ServerConfigChange result) w1 in
      (w2, Some result)
  | Rejected e =>
      let w1 := emit (ConsoleError e) w in
      let w2 := setState {| set_busy := Some false;
                            set_errorText := Some (failure_message e);
                            set_hsUrl := None; set_isUrl := None |} w1 in
      (w2, None)
  | OwnerThrew result thrown =>
      let w1 := setState {| set_busy := Some false; set_errorText := Some "";
                            set_hsUrl := None; set_isUrl := None |} w in
      let w2 := emit (ServerConfigChange result) w1 in
      let w3 := emit (ConsoleError thrown) w2 in
      let w4 := setState {| set_busy := Some false;
                            set_errorText := Some (failure_message thrown);
                            set_hsUrl := None; set_isUrl := None |} w3 in
      (w4, None)
  end.

(** [validateServer()] *)
Definition validateServer (k : Awaiter) (w : World) : World * Started :=
  validateAndApplyServer (hsUrl (state w)) (isUrl (state w)) k w.

(** [componentWillReceiveProps(newProps)] *)
Definition componentWillReceiveProps (newProps : Props) (w : World) : World :=
  if String.eqb (ValidatedServerConfig.hsUrl (serverConfig newProps))
                (hsUrl (state w))
     && String.eqb (ValidatedServerConfig.isUrl (serverConfig newProps))
                   (isUrl (state w))
  then w
  else fst (validateAndApplyServer
              (ValidatedServerConfig.hsUrl (serverConfig newProps))
              (ValidatedServerConfig.isUrl (serverConfig newProps))
              Dropped w).

(** [_waitThenInvoke(existingTimeoutId, fn)] *)
Definition _waitThenInvoke (existingTimeoutId : option nat) (w : World)
    : World * nat :=
  let w1 :=
    if truthy_id existingTimeoutId then
      match existingTimeoutId with
      | Some id => clearTimeout id w
      | None => w
      end
    else w in
  setTimeout (delayTimeMs (props w1)) w1.

(** [onHomeserverBlur] *)
Definition onHomeserverBlur (w : World) : World :=
  let (w1, id) := _waitThenInvoke (_hsTimeoutId w) w in
  with_hsTimeoutId (Some id) w1.

(** [onHomeserverChange], with [v] for [ev.target.value] *)
Definition onHomeserverChange (v : string) (w : World) : World :=
  setState {| set_busy := None; set_errorText := None;
              set_hsUrl := Some v; set_isUrl := None |} w.

(** [onIdentityServerBlur] *)
Definition onIdentityServerBlur (w : World) : World :=
  let (w1, id) := _waitThenInvoke (_isTimeoutId w) w in
  with_isTimeoutId (Some id) w1.

(** [onIdentityServerChange], with [v] for [ev.target.value] *)
Definition onIdentityServerChange (v : string) (w : World) : World :=
  setState {| set_busy := None; set_errorText := None;
              set_hsUrl := None; set_isUrl := Some v |} w.

(** [onSubmit] after [await this.validateServer()]. *)
Definition onSubmit_resume
    (result : option ValidatedServerConfig.t) (w : World) : World :=
  match result with
  | None => w
  | Some _ => if onAfterSubmit (props w) then emit AfterSubmit w else w
  end.

(** [onSubmit] *)
Definition onSubmit (w : World) : World :=
  let w0 := emit StopPropagation (emit PreventDefault w) in
  let (w1, st) := validateServer SubmitHandler w0 in
  match st with
  | Returned result => onSubmit_resume result w1
  | Suspended _ => w1
  end.

(** ** The event loop *)

Definition resume_awaiter
    (k : Awaiter) (result : option ValidatedServerConfig.t) (w : World)
    : World :=
  match k with
  | Dropped => w
  | SubmitHandler => onSubmit_resume result w
  end.

(** The discovery call [id] settles with [o]. *)
Definition settle (id : nat) (o : Settled) (w : World) : option World :=
  match find (fun c => Nat.eqb (pid c) id) (inflight w) with
  | None => None
  | Some c =>
      let w0 := with_inflight
                  (filter (fun c => negb (Nat.eqb (pid c) id)) (inflight w)) w in
      let (w1, result) := validateAndApplyServer_resume o w0 in
      Some (resume_awaiter (awaiter c) result w1)
  end.

(** The pending timer [id] has run out and its callback is invoked. *)
Definition fire (id : nat) (w : World) : option World :=
  match find (fun t => Nat.eqb (tid t) id) (timers w) with
  | None => None
  | Some t =>
      if Nat.leb (due t) (now w) then
        let w0 := with_timers
                    (filter (fun t => negb (Nat.eqb (tid t) id)) (timers w)) w in
        Some (fst (validateServer Dropped w0))
      else None
  end.

Inductive Event : Set :=
| ReceiveProps (newProps : Props)
| HomeserverChange (v : string)
| HomeserverBlur
| IdentityServerChange (v : string)
| IdentityServerBlur
| Submit
| Tick (d : nat)
| Fire (id : nat)
| Settle (id : nat) (o : Settled).

(** One turn of the event loop.  [None]: the event cannot happen in this
    world (no such pending timer or call). *)
Definition step (ev : Event) (w : World) : option World :=
  match ev with
  | ReceiveProps newProps =>
      Some (with_props newProps (componentWillReceiveProps newProps w))
  | HomeserverChange v => Some (onHomeserverChange v w)
  | HomeserverBlur => Some (onHomeserverBlur w)
  | IdentityServerChange v => Some (onIdentityServerChange v w)
  | IdentityServerBlur => Some (onIdentityServerBlur w)
  | Submit => Some (onSubmit w)
  | Tick d => Some (advance d w)
  | Fire id => fire id w
  | Settle id o => settle id o w
  end.

Fixpoint run (evs : list Event) (w : World) : option World :=
  match evs with
  | [] => Some w
  | ev :: rest =>
      match step ev w with
      | Some w' => run rest w'
      | None => None
      end
  end.

(** Worlds the component can be in: the constructor followed by any
    sequence of events. *)
Inductive reachable : World -> Prop :=
| reach_init : forall p, reachable (constructor p)
| reach_step : forall w ev w',
    reachable w -> step ev w = Some w' -> reachable w'.

End Component.

(** ** Observations on traces *)

(** The discovery calls of a trace, in order. *)
Fixpoint validate_calls (tr : list Effect) : list (nat * string * string) :=
  match tr with
  | [] => []
  | ValidateStaticUrls id hsU isU :: rest => (id, hsU, isU) :: validate_calls rest
  | _ :: rest => validate_calls rest
  end.

(** The arguments of the calls of [onServerConfigChange], in order. *)
Fixpoint owner_calls (tr : list Effect) : list ValidatedServerConfig.t :=
  match tr with
  | [] => []
  | ServerConfigChange c :: rest => c :: owner_calls rest
  | _ :: rest => owner_calls rest
  end.

(** The number of calls of [onAfterSubmit]. *)
Fixpoint after_submit_calls (tr : list Effect) : nat :=
  match tr with
  | [] => 0
  | AfterSubmit :: rest => S (after_submit_calls rest)
  | _ :: rest => after_submit_calls rest
  end.

(** A [setState] that raises [busy] clears [errorText] in the same call. *)
Definition busy_clears_error (e : Effect) : Prop :=
  match e with
  | SetState p => set_busy p = Some true -> set_errorText p = Some ""
  | _ => True
  end.

(** The invariant of the validation state. *)
Definition busy_implies_no_error (s : State) : Prop :=
  busy s = true -> errorText s = "".

(** The invariant together with its cause: it holds of the current state and
    every [setState] performed so far respected it. *)
Definition validation_invariant (w : World) : Prop :=
  busy_implies_no_error (state w) /\ Forall busy_clears_error (trace w).

(** A patch that cannot break the invariant: it lowers [busy], or raises it
    and clears [errorText], or touches neither. *)
Definition patch_safe (p : Patch) : Prop :=
  match set_busy p with
  | Some true => set_errorText p = Some ""
  | Some false => True
  | None => set_errorText p = None
  end.

(** The pending timers once the handle [existing] has gone through the test
    and the [clearTimeout] of [_waitThenInvoke]. *)
Definition without_timer (existing : option nat) (ts : list Timer)
    : list Timer :=
  if truthy_id existing then
    match existing with
    | Some id => filter (fun t => negb (Nat.eqb (tid t) id)) ts
    | None => ts
    end
  else ts.

(** Handles are fresh: every pending timer and every in-flight call was
    handed out before the next one, and timer handles are never [0]. *)
Definition well_formed (w : World) : Prop :=
  0 < nextTimer w
  /\ Forall (fun t => tid t < nextTimer w) (timers w)
  /\ Forall (fun c => pid c < nextCall w) (inflight w).

(** What a settled attempt shows to the user and tells the owner. *)
Definition shown_error (_t : string -> string) (o : Settled) : string :=
  match o with
  | Resolved _ => ""
  | Rejected e => failure_message _t e
  | OwnerThrew _ thrown => failure_message _t thrown
  end.

Definition told_owner (o : Settled) : list ValidatedServerConfig.t :=
  match o with
  | Resolved c => [c]
  | Rejected _ => []
  | OwnerThrew c _ => [c]
  end.

(** The two fields and their blur handlers. *)
Inductive Field : Set := Homeserver | IdentityServer.

Definition onBlur (f : Field) (w : World) : World :=
  match f with
  | Homeserver => onHomeserverBlur w
  | IdentityServer => onIdentityServerBlur w
  end.

Definition timeoutId (f : Field) (w : World) : option nat :=
  match f with
  | Homeserver => _hsTimeoutId w
  | IdentityServer => _isTimeoutId w
  end.

Definition onChange (f : Field) (v : string) (w : World) : World :=
  match f with
  | Homeserver => onHomeserverChange v w
  | IdentityServer => onIdentityServerChange v w
  end.



(** The failure message as the specification words it: the error's own
    message whenever the field is present, the fallback otherwise. *)
Definition failure_message_when_present
    (_t : string -> string) (e : DiscoveryError) : string :=
  match translatedMessage e with
  | Some m => m
  | None => _t fallback_message
  end.

(** The argument of the most recent call of [onServerConfigChange]. *)
Definition last_owner_call (tr : list Effect)
    : option ValidatedServerConfig.t :=
  last (map Some (owner_calls tr)) None.

(** The ordering guarantee as the specification words it: two attempts on
    custom URLs are started one after the other, both calls settle, in either
    order; the state shown afterwards, and the last configuration handed to
    the owner, are those of the attempt started last. *)
Definition latest_triggered_attempt_wins
    (defaultConfig : ValidatedServerConfig.t) (_t : string -> string) : Prop :=
  forall (w w' : World) (hs1 is1 hs2 is2 : string) (o1 o2 : Settled),
    reachable defaultConfig _t w ->
    is_default defaultConfig hs1 is1 = false ->
    is_default defaultConfig hs2 is2 = false ->
    let w1 := fst (validateAndApplyServer defaultConfig hs1 is1 Dropped w) in
    let w2 := fst (validateAndApplyServer defaultConfig hs2 is2 Dropped w1) in
    let p1 := nextCall w in
    let p2 := S (nextCall w) in
    run defaultConfig _t [Settle p1 o1; Settle p2 o2] w2 = Some w'
    \/ run defaultConfig _t [Settle p2 o2; Settle p1 o1] w2 = Some w' ->
    busy (state w') = false
    /\ errorText (state w') = shown_error _t o2
    /\ (forall c, o2 = Resolved c -> last_owner_call (trace w') = Some c).


(** ** Sample data *)

Definition matrix_org : ValidatedServerConfig.t :=
  ValidatedServerConfig.mk "https://matrix.org" "https://vector.im" "matrix.org".

Definition custom_example : ValidatedServerConfig.t :=
  ValidatedServerConfig.mk "https://custom.example" "https://vector.im"
                           "custom.example".

Definition other_example : ValidatedServerConfig.t :=
  ValidatedServerConfig.mk "https://other.example" "https://vector.im"
                           "other.example".

Definition bad_server : DiscoveryError :=
  {| translatedMessage := Some "Bad server"; rawError := "Error: Bad server" |}.

Definition bare_error : DiscoveryError :=
  {| translatedMessage := None; rawError := "TypeError: Failed to fetch" |}.

Definition callback_error : DiscoveryError :=
  {| translatedMessage := None;
     rawError := "TypeError: Cannot read property of undefined" |}.

Definition empty_message_error : DiscoveryError :=
  {| translatedMessage := Some ""; rawError := "Error" |}.

Definition props_of (c : ValidatedServerConfig.t) (delay : nat) (after : bool)
    : Props :=
  {| serverConfig := c; delayTimeMs := delay; onAfterSubmit := after |}.

(** English: every message is its own translation. *)
Definition english (s : string) : string := s.

(** ** Rendering *)

(** The handlers [render] attaches to the elements. *)
Inductive Handler : Set :=
| OnHomeserverBlur
| OnHomeserverChange
| OnIdentityServerBlur
| OnIdentityServerChange
| OnSubmit
| ShowHelpPopup.

Module FieldElement.
(** The props [render] passes to an [elements.Field]. *)
Record t : Set := mk {
  id : string;
  label : string;
  placeholder : string;
  value : string;
  onBlur : Handler;
  onChange : Handler;
  disabled : bool
}.
End FieldElement.

Module AccessibleButton.
(** The props [render] passes to the [elements.AccessibleButton]. *)
Record t : Set := mk {
  element : string;
  type : string;
  className : option string;
  onClick : Handler;
  disabled : bool;
  children : string
}.
End AccessibleButton.



(** ** Further observations *)

(** The field a blur or change handler does not belong to. *)
Definition other_field (f : Field) : Field :=
  match f with
  | Homeserver => IdentityServer
  | IdentityServer => Homeserver
  end.

(** The state after [onChange f v]. *)
Definition edited (f : Field) (v : string) (s : State) : State :=
  match f with
  | Homeserver =>
      {| busy := busy s; errorText := errorText s;
         hsUrl := v; isUrl := isUrl s |}
  | IdentityServer =>
      {| busy := busy s; errorText := errorText s;
         hsUrl := hsUrl s; isUrl := v |}
  end.

(** The errors passed to [console.error], in order. *)
Fixpoint logged_errors (tr : list Effect) : list DiscoveryError :=
  match tr with
  | [] => []
  | ConsoleError e :: rest => e :: logged_errors rest
  | _ :: rest => logged_errors rest
  end.

(** While [busy], the discovery call made last has not settled. *)
Definition busy_awaits_latest (w : World) : Prop :=
  busy (state w) = true ->
  exists c, In c (inflight w) /\ S (pid c) = nextCall w.

(** An error text on display is the message of an error that was logged. *)
Definition shown_error_logged (_t : string -> string) (w : World) : Prop :=
  errorText (state w) = ""
  \/ exists e, In e (logged_errors (trace w))
               /\ errorText (state w) = failure_message _t e.

(** Every pending timer is the one a field holds the handle of; handles are
    handed out once, never [0], and the two fields never hold the same.
    Stated from the side of the field [f]. *)
Definition timers_owned_from (f : Field) (w : World) : Prop :=
  NoDup (map tid (timers w))
  /\ Forall (fun t => timeoutId f w = Some (tid t)
                      \/ timeoutId (other_field f) w = Some (tid t))
            (timers w)
  /\ (forall g id, timeoutId g w = Some id -> 0 < id < nextTimer w)
  /\ (forall id, timeoutId f w = Some id ->
                 timeoutId (other_field f) w <> Some id).

Definition timers_owned (w : World) : Prop :=
  timers_owned_from Homeserver w.

(** Events that edit a field or hand in a new configuration. *)
Definition edits_urls (ev : Event) : bool :=
  match ev with
  | ReceiveProps _ | HomeserverChange _ | IdentityServerChange _ => true
  | _ => false
  end.

(** * Properties *)

Section Properties.

Variable defaultConfig : ValidatedServerConfig.t.
Variable _t : string -> string.

(** ** Basic facts *)

Lemma is_default_true (hsU isU : string) :
  is_default defaultConfig hsU isU = true <->
  hsU = ValidatedServerConfig.hsUrl defaultConfig
  /\ isU = ValidatedServerConfig.isUrl defaultConfig.
Proof.
  unfold is_default. rewrite andb_true_iff, !String.eqb_eq.
  split; intros [H1 H2]; split; congruence.
Qed.

Lemma is_default_false (hsU isU : string) :
  is_default defaultConfig hsU isU = false <->
  ~ (hsU = ValidatedServerConfig.hsUrl defaultConfig
     /\ isU = ValidatedServerConfig.isUrl defaultConfig).
Proof.
  rewrite <- is_default_true.
  destruct (is_default defaultConfig hsU isU); split; intro H;
    try reflexivity; try discriminate; try (intro; discriminate).
  exfalso. apply H. reflexivity.
Qed.

Lemma validate_calls_app (a b : list Effect) :
  validate_calls (a ++ b) = validate_calls a ++ validate_calls b.
Proof.
  induction a as [|e a IH]; simpl; [reflexivity|].
  destruct e; simpl; rewrite ?IH; reflexivity.
Qed.

Lemma owner_calls_app (a b : list Effect) :
  owner_calls (a ++ b) = owner_calls a ++ owner_calls b.
Proof.
  induction a as [|e a IH]; simpl; [reflexivity|].
  destruct e; simpl; rewrite ?IH; reflexivity.
Qed.

Lemma after_submit_calls_app (a b : list Effect) :
  after_submit_calls (a ++ b) = after_submit_calls a + after_submit_calls b.
Proof.
  induction a as [|e a IH]; simpl; [reflexivity|].
  destruct e; simpl; rewrite ?IH; reflexivity.
Qed.

(** ** The fast path *)


(** ** The slow path *)

(** C2 (amended): for arguments that are not both equal to the default
    URLs, [validateAndApplyServer] first sets [busy = true] and
    [errorText = ""] (together with the two URLs), then calls the discovery
    collaborator exactly once with these URLs and suspends on that call.
    When the call is fulfilled, the continuation sets [busy = false] and
    [errorText = ""] and calls [onServerConfigChange] exactly once with the
    result, without a further discovery call.  When that call returns, the
    routine returns the result.  When that call throws, the [catch] block
    takes over as for a rejected discovery call: the thrown error is logged,
    [errorText] is set to its failure message and the routine returns null.
    When the discovery call is rejected, [onServerConfigChange] is not
    called. *)
Theorem validateAndApplyServer_custom
    (hsU isU : string) (k : Awaiter) (w : World)
    (Hcustom : ~ (hsU = ValidatedServerConfig.hsUrl defaultConfig
                  /\ isU = ValidatedServerConfig.isUrl defaultConfig)) :
  (let (w1, st) := validateAndApplyServer defaultConfig hsU isU k w in
   st = Suspended (nextCall w)
   /\ trace w1 = trace w ++
        [SetState {| set_busy := Some true; set_errorText := Some "";
                     set_hsUrl := Some hsU; set_isUrl := Some isU |};
         ValidateStaticUrls (nextCall w) hsU isU]
   /\ busy (state w1) = true
   /\ errorText (state w1) = ""
   /\ validate_calls (trace w1) =
        validate_calls (trace w) ++ [(nextCall w, hsU, isU)]
   /\ owner_calls (trace w1) = owner_calls (trace w)
   /\ inflight w1 = inflight w ++
        [{| pid := nextCall w; call_hsUrl := hsU; call_isUrl := isU;
            awaiter := k |}])
  /\ (forall (result : ValidatedServerConfig.t) (w2 : World),
       let (w3, ret) := validateAndApplyServer_resume _t (Resolved result) w2 in
       ret = Some result
       /\ trace w3 = trace w2 ++
            [SetState {| set_busy := Some false; set_errorText := Some "";
                         set_hsUrl := None; set_isUrl := None |};
             ServerConfigChange result]
       /\ busy (state w3) = false
       /\ errorText (state w3) = ""
       /\ owner_calls (trace w3) = owner_calls (trace w2) ++ [result]
       /\ validate_calls (trace w3) = validate_calls (trace w2))
  /\ (forall (result : ValidatedServerConfig.t) (thrown : DiscoveryError)
             (w2 : World),
       let (w3, ret) :=
         validateAndApplyServer_resume _t (OwnerThrew result thrown) w2 in
       ret = None
       /\ trace w3 = trace w2 ++
            [SetState {| set_busy := Some false; set_errorText := Some "";
                         set_hsUrl := None; set_isUrl := None |};
             ServerConfigChange result;
             ConsoleError thrown;
             SetState {| set_busy := Some false;
                         set_errorText := Some (failure_message _t thrown);
                         set_hsUrl := None; set_isUrl := None |}]
       /\ busy (state w3) = false
       /\ errorText (state w3) = failure_message _t thrown
       /\ owner_calls (trace w3) = owner_calls (trace w2) ++ [result]
       /\ validate_calls (trace w3) = validate_calls (trace w2))
  /\ (forall (e : DiscoveryError) (w2 : World),
       let (w3, ret) := validateAndApplyServer_resume _t (Rejected e) w2 in
       owner_calls (trace w3) = owner_calls (trace w2)
       /\ validate_calls (trace w3) = validate_calls (trace w2)).
Proof.
  apply is_default_false in Hcustom.
  split; [|split; [|split]].
  - unfold validateAndApplyServer. rewrite Hcustom. simpl.
    rewrite <- !app_assoc. simpl.
    rewrite validate_calls_app, owner_calls_app. simpl.
    rewrite app_nil_r. repeat split; reflexivity.
  - intros result w2. simpl. rewrite <- !app_assoc. simpl.
    rewrite validate_calls_app, owner_calls_app. simpl.
    rewrite app_nil_r. repeat split; reflexivity.
  - intros result thrown w2. simpl. rewrite <- !app_assoc. simpl.
    rewrite validate_calls_app, owner_calls_app. simpl.
    rewrite app_nil_r. repeat split; reflexivity.
  - intros e w2. simpl. rewrite <- !app_assoc. simpl.
    rewrite validate_calls_app, owner_calls_app. simpl.
    rewrite !app_nil_r. split; reflexivity.
Qed.

(** ** The failure branch *)

Lemma failure_message_cases (e : DiscoveryError) :
  failure_message _t e =
    match translatedMessage e with
    | Some "" => _t fallback_message
    | Some m => m
    | None => _t fallback_message
    end.
Proof.
  unfold failure_message, truthy_string.
  destruct (translatedMessage e) as [m|]; [|reflexivity].
  destruct m; reflexivity.
Qed.

(** C3 (amended): when the discovery call is rejected, the continuation
    logs the raw error, then sets [busy = false] and sets [errorText] to the
    error's [translatedMessage] when that field is present and not the
    empty string, and to the translated fallback message otherwise; it
    returns null without calling [onServerConfigChange].  Null is what the
    continuation returns for a rejected call, and for a fulfilled call when
    [onServerConfigChange] throws; it returns the result otherwise. *)
Theorem validateAndApplyServer_rejected (e : DiscoveryError) (w : World) :
  (let (w', ret) := validateAndApplyServer_resume _t (Rejected e) w in
   ret = None
   /\ trace w' = trace w ++
        [ConsoleError e;
         SetState {| set_busy := Some false;
                     set_errorText := Some (failure_message _t e);
                     set_hsUrl := None; set_isUrl := None |}]
   /\ busy (state w') = false
   /\ errorText (state w') = failure_message _t e
   /\ owner_calls (trace w') = owner_calls (trace w))
  /\ (forall m, translatedMessage e = Some m -> m <> "" ->
        failure_message _t e = m)
  /\ (translatedMessage e = None \/ translatedMessage e = Some "" ->
        failure_message _t e = _t fallback_message)
  /\ (forall (o : Settled) (w0 : World),
        snd (validateAndApplyServer_resume _t o w0) = None <->
        (exists e0, o = Rejected e0)
        \/ (exists result thrown, o = OwnerThrew result thrown)).
Proof.
  split; [|split; [|split]].
  - simpl. rewrite <- !app_assoc. simpl.
    rewrite owner_calls_app. simpl. rewrite app_nil_r.
    repeat split; reflexivity.
  - intros m Hm Hne. rewrite failure_message_cases, Hm.
    destruct m; [contradiction|reflexivity].
  - intros [H|H]; rewrite failure_message_cases, H; reflexivity.
  - intros o w0. destruct o as [c|e0|c thrown]; simpl; split.
    + discriminate.
    + intros [[e0 H]|(r & t & H)]; discriminate.
    + intros _. left. exists e0. reflexivity.
    + reflexivity.
    + intros _. right. exists c, thrown. reflexivity.
    + reflexivity.
Qed.

(** ** Field changes *)

(** C9: a change event of one field performs one [setState] that carries
    that field only: the field takes the new value, the other field, [busy]
    and [errorText] keep theirs, no discovery call is made or put in
    flight, no timer is scheduled and nothing else in the world changes. *)
Theorem onChange_frame (f : Field) (v : string) (w : World) :
  let w' := onChange f v w in
  hsUrl (state w') = (match f with Homeserver => v
                                 | IdentityServer => hsUrl (state w) end)
  /\ isUrl (state w') = (match f with Homeserver => isUrl (state w)
                                    | IdentityServer => v end)
  /\ busy (state w') = busy (state w)
  /\ errorText (state w') = errorText (state w)
  /\ trace w' = trace w ++
       [SetState (match f with
                  | Homeserver =>
                      {| set_busy := None; set_errorText := None;
                         set_hsUrl := Some v; set_isUrl := None |}
                  | IdentityServer =>
                      {| set_busy := None; set_errorText := None;
                         set_hsUrl := None; set_isUrl := Some v |}
                  end)]
  /\ validate_calls (trace w') = validate_calls (trace w)
  /\ owner_calls (trace w') = owner_calls (trace w)
  /\ inflight w' = inflight w
  /\ nextCall w' = nextCall w
  /\ timers w' = timers w
  /\ nextTimer w' = nextTimer w
  /\ timeoutId Homeserver w' = timeoutId Homeserver w
  /\ timeoutId IdentityServer w' = timeoutId IdentityServer w
  /\ props w' = props w
  /\ now w' = now w.
Proof.
  destruct f; simpl; rewrite validate_calls_app, owner_calls_app; simpl;
    rewrite !app_nil_r; repeat split; reflexivity.
Qed.

(** C10: when both arguments equal the default URLs,
    [validateAndApplyServer] leaves [state.hsUrl] and [state.isUrl] as they
    were, its single [setState] carrying [busy] and [errorText] only; so
    [componentWillReceiveProps] with a configuration whose URLs equal the
    default ones but differ from the current edits does not adopt them. *)
Theorem default_urls_not_adopted
    (hsU isU : string) (k : Awaiter) (w : World)
    (Hhs : hsU = ValidatedServerConfig.hsUrl defaultConfig)
    (His : isU = ValidatedServerConfig.isUrl defaultConfig) :
  (let w' := fst (validateAndApplyServer defaultConfig hsU isU k w) in
   hsUrl (state w') = hsUrl (state w)
   /\ isUrl (state w') = isUrl (state w)
   /\ trace w' = trace w ++
        [SetState {| set_busy := Some false; set_errorText := Some "";
                     set_hsUrl := None; set_isUrl := None |};
         ServerConfigChange defaultConfig])
  /\ (forall newProps : Props,
        ValidatedServerConfig.hsUrl (serverConfig newProps) = hsU ->
        ValidatedServerConfig.isUrl (serverConfig newProps) = isU ->
        let w' := componentWillReceiveProps defaultConfig newProps w in
        hsUrl (state w') = hsUrl (state w)
        /\ isUrl (state w') = isUrl (state w)).
Proof.
  assert (Hd : is_default defaultConfig hsU isU = true)
    by (apply is_default_true; split; assumption).
  split.
  - unfold validateAndApplyServer. rewrite Hd. simpl.
    rewrite <- !app_assoc. repeat split; reflexivity.
  - intros newProps H1 H2. unfold componentWillReceiveProps.
    destruct (_ && _); [split; reflexivity|].
    rewrite H1, H2. unfold validateAndApplyServer. rewrite Hd. simpl.
    split; reflexivity.
Qed.

(** ** Fresh handles *)

Lemma Forall_filter_keep {A : Type} (P : A -> Prop) (f : A -> bool)
    (l : list A) :
  Forall P l -> Forall P (filter f l).
Proof.
  rewrite !Forall_forall. intros H x Hx.
  apply filter_In in Hx. apply H, Hx.
Qed.

Lemma find_fresh {A : Type} (key : A -> nat) (n : nat) (l l' : list A) :
  Forall (fun x => key x < n) l ->
  find (fun x => Nat.eqb (key x) n) (l ++ l') =
  find (fun x => Nat.eqb (key x) n) l'.
Proof.
  induction 1 as [|x l Hx _ IH]; simpl; [reflexivity|].
  destruct (Nat.eqb_spec (key x) n); [lia|exact IH].
Qed.

Lemma filter_fresh {A : Type} (key : A -> nat) (n : nat) (l : list A) :
  Forall (fun x => key x < n) l ->
  filter (fun x => negb (Nat.eqb (key x) n)) l = l.
Proof.
  induction 1 as [|x l Hx _ IH]; simpl; [reflexivity|].
  destruct (Nat.eqb_spec (key x) n); [lia|]. simpl. rewrite IH. reflexivity.
Qed.

Lemma Forall_lt_weaken {A : Type} (key : A -> nat) (n m : nat) (l : list A) :
  n <= m -> Forall (fun x => key x < n) l -> Forall (fun x => key x < m) l.
Proof.
  intros Hnm. apply Forall_impl. intros x Hx. lia.
Qed.

Lemma well_formed_validateAndApplyServer
    (hsU isU : string) (k : Awaiter) (w : World) :
  well_formed w ->
  well_formed (fst (validateAndApplyServer defaultConfig hsU isU k w)).
Proof.
  unfold well_formed, validateAndApplyServer.
  intros (H0 & Ht & Hc).
  destruct (is_default defaultConfig hsU isU); simpl.
  - repeat split; assumption.
  - repeat split; try assumption.
    apply Forall_app. split.
    + apply Forall_lt_weaken with (n := nextCall w); [lia|assumption].
    + constructor; [simpl; lia|constructor].
Qed.

Lemma well_formed_onSubmit_resume
    (r : option ValidatedServerConfig.t) (w : World) :
  well_formed w -> well_formed (onSubmit_resume r w).
Proof.
  unfold onSubmit_resume. destruct r; [|trivial].
  destruct (onAfterSubmit (props w)); trivial.
Qed.

Lemma well_formed_waitThenInvoke (existing : option nat) (w : World) :
  well_formed w -> well_formed (fst (_waitThenInvoke existing w)).
Proof.
  unfold well_formed, _waitThenInvoke.
  intros (H0 & Ht & Hc).
  assert (Hf : forall id,
    Forall (fun t => tid t < S (nextTimer w))
      (filter (fun t => negb (Nat.eqb (tid t) id)) (timers w) ++
       [{| tid := nextTimer w;
           due := now w + delayTimeMs (props w) |}])).
  { intro id. apply Forall_app. split.
    - apply Forall_filter_keep.
      apply Forall_lt_weaken with (n := nextTimer w); [lia|assumption].
    - constructor; [simpl; lia|constructor]. }
  destruct existing as [[|id]|]; simpl; repeat split;
    try assumption; try lia; try apply Hf;
    (apply Forall_app; split;
     [apply Forall_lt_weaken with (n := nextTimer w); [lia|assumption]
     |constructor; [simpl; lia|constructor]]).
Qed.

Lemma well_formed_step (ev : Event) (w w' : World) :
  well_formed w -> step defaultConfig _t ev w = Some w' -> well_formed w'.
Proof.
  intros Hw Hs. destruct ev; simpl in Hs.
  - injection Hs as <-. unfold componentWillReceiveProps.
    destruct (_ && _); [exact Hw|].
    apply well_formed_validateAndApplyServer. exact Hw.
  - injection Hs as <-. exact Hw.
  - injection Hs as <-. unfold onHomeserverBlur.
    pose proof (well_formed_waitThenInvoke (_hsTimeoutId w) w Hw) as H.
    destruct (_waitThenInvoke (_hsTimeoutId w) w). exact H.
  - injection Hs as <-. exact Hw.
  - injection Hs as <-. unfold onIdentityServerBlur.
    pose proof (well_formed_waitThenInvoke (_isTimeoutId w) w Hw) as H.
    destruct (_waitThenInvoke (_isTimeoutId w) w). exact H.
  - injection Hs as <-. unfold onSubmit, validateServer.
    set (w0 := emit StopPropagation (emit PreventDefault w)).
    assert (Hw0 : well_formed w0) by exact Hw.
    pose proof (well_formed_validateAndApplyServer
                  (hsUrl (state w0)) (isUrl (state w0)) SubmitHandler w0 Hw0)
      as H.
    destruct (validateAndApplyServer _ _ _ _ w0) as [w1 [r|id]];
      [apply well_formed_onSubmit_resume|]; exact H.
  - injection Hs as <-. exact Hw.
  - unfold fire in Hs.
    destruct (find _ (timers w)) as [t|]; [|discriminate].
    destruct (Nat.leb (due t) (now w)); [|discriminate].
    injection Hs as <-. unfold validateServer.
    apply well_formed_validateAndApplyServer.
    destruct Hw as (H0 & Ht & Hc). repeat split; try assumption.
    apply Forall_filter_keep, Ht.
  - unfold settle in Hs.
    destruct (find _ (inflight w)) as [c|]; [|discriminate].
    assert (Hw0 : well_formed
              (with_inflight
                 (filter (fun c => negb (Nat.eqb (pid c) id)) (inflight w)) w)).
    { destruct Hw as (H0 & Ht & Hc). repeat split; try assumption.
      apply Forall_filter_keep, Hc. }
    destruct o as [result|e|result thrown]; simpl in Hs; injection Hs as <-;
      destruct (awaiter c); simpl; try exact Hw0;
      try (destruct (onAfterSubmit _); exact Hw0).
Qed.

Lemma reachable_well_formed (w : World) :
  reachable defaultConfig _t w -> well_formed w.
Proof.
  induction 1 as [p|w ev w' _ IH Hs].
  - repeat split; simpl; [lia|constructor|constructor].
  - eapply well_formed_step; eassumption.
Qed.

Lemma run_reachable (evs : list Event) (w w' : World) :
  reachable defaultConfig _t w ->
  run defaultConfig _t evs w = Some w' ->
  reachable defaultConfig _t w'.
Proof.
  revert w. induction evs as [|ev evs IH]; simpl; intros w Hw Hr.
  - injection Hr as <-. exact Hw.
  - destruct (step defaultConfig _t ev w) as [w1|] eqn:Hs; [|discriminate].
    apply (IH w1); [|exact Hr].
    eapply reach_step; eassumption.
Qed.

(** ** The invariant of the validation state *)

Lemma invariant_setState (p : Patch) (w : World) :
  patch_safe p -> validation_invariant w ->
  validation_invariant (setState p w).
Proof.
  unfold patch_safe, validation_invariant, busy_implies_no_error.
  intros Hp [Hs Ht]. split.
  - simpl. destruct (set_busy p) as [[|]|]; simpl.
    + intros _. rewrite Hp. reflexivity.
    + discriminate.
    + rewrite Hp. exact Hs.
  - simpl. apply Forall_app. split; [exact Ht|].
    constructor; [|constructor]. simpl.
    destruct (set_busy p) as [[|]|]; try discriminate. intros _. exact Hp.
Qed.

Lemma invariant_extend (tr : list Effect) (w w' : World) :
  state w' = state w -> trace w' = trace w ++ tr ->
  Forall busy_clears_error tr ->
  validation_invariant w -> validation_invariant w'.
Proof.
  unfold validation_invariant. intros Hs Ht Htr [H1 H2].
  rewrite Hs, Ht. split; [exact H1|].
  apply Forall_app. split; assumption.
Qed.

Lemma invariant_same (w w' : World) :
  state w' = state w -> trace w' = trace w ->
  validation_invariant w -> validation_invariant w'.
Proof.
  intros Hs Ht. apply (invariant_extend []); [exact Hs| |constructor].
  rewrite app_nil_r. exact Ht.
Qed.

Lemma invariant_emit (e : Effect) (w : World) :
  busy_clears_error e -> validation_invariant w ->
  validation_invariant (emit e w).
Proof.
  intros He. apply (invariant_extend [e]); try reflexivity.
  constructor; [exact He|constructor].
Qed.

Lemma validateAndApplyServer_world
    (hsU isU : string) (k : Awaiter) (w : World) :
  fst (validateAndApplyServer defaultConfig hsU isU k w) =
  if is_default defaultConfig hsU isU then
    emit (ServerConfigChange defaultConfig)
         (setState {| set_busy := Some false; set_errorText := Some "";
                      set_hsUrl := None; set_isUrl := None |} w)
  else
    fst (validateServerConfigWithStaticUrls hsU isU k
           (setState {| set_busy := Some true; set_errorText := Some "";
                        set_hsUrl := Some hsU; set_isUrl := Some isU |} w)).
Proof.
  unfold validateAndApplyServer.
  destruct (is_default defaultConfig hsU isU); reflexivity.
Qed.

Lemma invariant_validateAndApplyServer
    (hsU isU : string) (k : Awaiter) (w : World) :
  validation_invariant w ->
  validation_invariant (fst (validateAndApplyServer defaultConfig hsU isU k w)).
Proof.
  intros Hw. rewrite validateAndApplyServer_world.
  destruct (is_default defaultConfig hsU isU).
  - apply invariant_emit; [exact I|].
    apply invariant_setState; [exact I|exact Hw].
  - set (w1 := setState _ w).
    apply (invariant_extend [ValidateStaticUrls (nextCall w1) hsU isU] w1);
      [reflexivity|reflexivity|constructor; [exact I|constructor]|].
    apply invariant_setState; [reflexivity|exact Hw].
Qed.

Lemma invariant_resume (o : Settled) (w : World) :
  validation_invariant w ->
  validation_invariant (fst (validateAndApplyServer_resume _t o w)).
Proof.
  intros Hw. destruct o as [result|e|result thrown]; simpl fst.
  - apply invariant_emit; [exact I|].
    apply invariant_setState; [exact I|exact Hw].
  - apply invariant_setState; [exact I|].
    apply invariant_emit; [exact I|exact Hw].
  - apply invariant_setState; [exact I|].
    apply invariant_emit; [exact I|].
    apply invariant_emit; [exact I|].
    apply invariant_setState; [exact I|exact Hw].
Qed.

Lemma invariant_onSubmit_resume
    (r : option ValidatedServerConfig.t) (w : World) :
  validation_invariant w -> validation_invariant (onSubmit_resume r w).
Proof.
  intros Hw. unfold onSubmit_resume. destruct r; [|exact Hw].
  destruct (onAfterSubmit (props w)); [|exact Hw].
  apply invariant_emit; [exact I|exact Hw].
Qed.

Lemma invariant_waitThenInvoke (existing : option nat) (w : World) :
  validation_invariant w ->
  validation_invariant (fst (_waitThenInvoke existing w)).
Proof.
  intros Hw. unfold _waitThenInvoke.
  set (w1 := if truthy_id existing then _ else w).
  assert (Hw1 : validation_invariant w1).
  { subst w1. destruct existing as [[|id]|]; simpl; try exact Hw.
    unfold clearTimeout. apply invariant_emit; [exact I|].
    apply (invariant_same w); [reflexivity|reflexivity|exact Hw]. }
  apply (invariant_extend
           [SetTimeout (nextTimer w1) (delayTimeMs (props w1))] w1);
    [reflexivity|reflexivity|constructor; [exact I|constructor]|exact Hw1].
Qed.

Lemma invariant_step (ev : Event) (w w' : World) :
  validation_invariant w -> step defaultConfig _t ev w = Some w' ->
  validation_invariant w'.
Proof.
  intros Hw Hs. destruct ev; simpl in Hs.
  - injection Hs as <-.
    apply (invariant_same (componentWillReceiveProps defaultConfig newProps w));
      [reflexivity|reflexivity|].
    unfold componentWillReceiveProps.
    destruct (_ && _); [exact Hw|].
    apply invariant_validateAndApplyServer. exact Hw.
  - injection Hs as <-. apply invariant_setState; [reflexivity|exact Hw].
  - injection Hs as <-. unfold onHomeserverBlur.
    pose proof (invariant_waitThenInvoke (_hsTimeoutId w) w Hw) as H.
    destruct (_waitThenInvoke (_hsTimeoutId w) w) as [w1 id].
    apply (invariant_same w1); [reflexivity|reflexivity|exact H].
  - injection Hs as <-. apply invariant_setState; [reflexivity|exact Hw].
  - injection Hs as <-. unfold onIdentityServerBlur.
    pose proof (invariant_waitThenInvoke (_isTimeoutId w) w Hw) as H.
    destruct (_waitThenInvoke (_isTimeoutId w) w) as [w1 id].
    apply (invariant_same w1); [reflexivity|reflexivity|exact H].
  - injection Hs as <-. unfold onSubmit, validateServer.
    set (w0 := emit StopPropagation (emit PreventDefault w)).
    assert (Hw0 : validation_invariant w0).
    { apply invariant_emit; [exact I|].
      apply invariant_emit; [exact I|exact Hw]. }
    pose proof (invariant_validateAndApplyServer
                  (hsUrl (state w0)) (isUrl (state w0)) SubmitHandler w0 Hw0)
      as H.
    destruct (validateAndApplyServer _ _ _ _ w0) as [w1 [r|id]];
      [apply invariant_onSubmit_resume|]; exact H.
  - injection Hs as <-.
    apply (invariant_same w); [reflexivity|reflexivity|exact Hw].
  - unfold fire in Hs.
    destruct (find _ (timers w)) as [t|]; [|discriminate].
    destruct (Nat.leb (due t) (now w)); [|discriminate].
    injection Hs as <-. unfold validateServer.
    apply invariant_validateAndApplyServer.
    apply (invariant_same w); [reflexivity|reflexivity|exact Hw].
  - unfold settle in Hs.
    destruct (find _ (inflight w)) as [c|]; [|discriminate].
    set (w0 := with_inflight _ w) in Hs.
    assert (Hw0 : validation_invariant w0)
      by (apply (invariant_same w); [reflexivity|reflexivity|exact Hw]).
    pose proof (invariant_resume o w0 Hw0) as H.
    destruct (validateAndApplyServer_resume _t o w0) as [w1 r].
    injection Hs as <-. destruct (awaiter c); simpl;
      [exact H|apply invariant_onSubmit_resume; exact H].
Qed.

(** C5: in every world the component can reach from its constructor,
    [busy = true] implies [errorText = ""], and every [setState] performed
    on the way that set [busy] to true set [errorText] to [""] in the same
    call.  The constructor establishes the predicate, and the fast path,
    the start of the slow path, the success continuation and the failure
    continuation each preserve it from any world. *)
Theorem busy_implies_error_cleared (w : World)
    (Hreach : reachable defaultConfig _t w) :
  (busy (state w) = true -> errorText (state w) = "")
  /\ Forall busy_clears_error (trace w)
  /\ (forall p, validation_invariant (constructor p))
  /\ (forall w0 hsU isU k, validation_invariant w0 ->
        validation_invariant
          (fst (validateAndApplyServer defaultConfig hsU isU k w0)))
  /\ (forall w0 o, validation_invariant w0 ->
        validation_invariant (fst (validateAndApplyServer_resume _t o w0))).
Proof.
  assert (Hinit : forall p, validation_invariant (constructor p)).
  { intro p. split; [discriminate|constructor]. }
  assert (Hw : validation_invariant w).
  { induction Hreach as [p|w ev w' _ IH Hs]; [apply Hinit|].
    eapply invariant_step; eassumption. }
  destruct Hw as [H1 H2].
  split; [exact H1|]. split; [exact H2|]. split; [exact Hinit|].
  split.
  - intros w0 hsU isU k. apply invariant_validateAndApplyServer.
  - intros w0 o. apply invariant_resume.
Qed.

(** ** Settling a discovery call *)

Lemma validateAndApplyServer_frame
    (hsU isU : string) (k : Awaiter) (w : World) :
  let w' := fst (validateAndApplyServer defaultConfig hsU isU k w) in
  timers w' = timers w
  /\ nextTimer w' = nextTimer w
  /\ now w' = now w
  /\ props w' = props w
  /\ validate_calls (trace w') =
       validate_calls (trace w) ++
       (if is_default defaultConfig hsU isU then []
        else [(nextCall w, hsU, isU)])
  /\ after_submit_calls (trace w') = after_submit_calls (trace w).
Proof.
  cbv zeta. rewrite validateAndApplyServer_world.
  destruct (is_default defaultConfig hsU isU); simpl;
    rewrite <- ?app_assoc, validate_calls_app, after_submit_calls_app; simpl;
    rewrite ?app_nil_r, ?Nat.add_0_r; repeat split; reflexivity.
Qed.

Lemma validateAndApplyServer_suspends
    (hsU isU : string) (k : Awaiter) (w : World) :
  is_default defaultConfig hsU isU = false ->
  let w' := fst (validateAndApplyServer defaultConfig hsU isU k w) in
  inflight w' = inflight w ++
    [{| pid := nextCall w; call_hsUrl := hsU; call_isUrl := isU;
        awaiter := k |}]
  /\ nextCall w' = S (nextCall w)
  /\ state w' = {| busy := true; errorText := ""; hsUrl := hsU; isUrl := isU |}
  /\ owner_calls (trace w') = owner_calls (trace w)
  /\ snd (validateAndApplyServer defaultConfig hsU isU k w)
     = Suspended (nextCall w).
Proof.
  intros Hd. cbv zeta. unfold validateAndApplyServer. rewrite Hd. simpl.
  rewrite <- app_assoc, owner_calls_app. simpl. rewrite app_nil_r.
  repeat split; reflexivity.
Qed.

Lemma find_filter_out {A : Type} (key : A -> nat) (n : nat) (l : list A) :
  find (fun x => Nat.eqb (key x) n)
       (filter (fun x => negb (Nat.eqb (key x) n)) l) = None.
Proof.
  induction l as [|x l IH]; simpl; [reflexivity|].
  destruct (Nat.eqb (key x) n) eqn:E; simpl; [exact IH|].
  rewrite E. exact IH.
Qed.

(** Whatever else is in flight, the continuation of a settled call
    overwrites [busy] and [errorText] with the outcome of that call. *)
Lemma settle_outcome (id : nat) (o : Settled) (w : World) (c : Call) :
  find (fun c => Nat.eqb (pid c) id) (inflight w) = Some c ->
  exists w',
    settle _t id o w = Some w'
    /\ busy (state w') = false
    /\ errorText (state w') = shown_error _t o
    /\ hsUrl (state w') = hsUrl (state w)
    /\ isUrl (state w') = isUrl (state w)
    /\ owner_calls (trace w') = owner_calls (trace w) ++ told_owner o
    /\ validate_calls (trace w') = validate_calls (trace w)
    /\ after_submit_calls (trace w') =
         after_submit_calls (trace w) +
         match awaiter c, o with
         | SubmitHandler, Resolved _ =>
             if onAfterSubmit (props w) then 1 else 0
         | _, _ => 0
         end
    /\ inflight w' = filter (fun c => negb (Nat.eqb (pid c) id)) (inflight w)
    /\ nextCall w' = nextCall w
    /\ props w' = props w.
Proof.
  intros Hf. unfold settle. rewrite Hf.
  destruct o as [result|e|result thrown]; destruct (awaiter c); simpl;
    try destruct (onAfterSubmit (props w)); simpl;
    eexists; (split; [reflexivity|]); simpl;
    rewrite <- ?app_assoc, ?owner_calls_app, ?validate_calls_app,
      ?after_submit_calls_app; simpl;
    rewrite ?app_nil_r, ?Nat.add_0_r; repeat split; reflexivity.
Qed.

(** ** Overlapping attempts *)

(** C4 (amended): when a second attempt on custom URLs is started while the
    discovery call of a first one is in flight, both calls can settle in
    either order, and after both have settled [busy] is false, [errorText]
    is the one of the call that settled last (empty for a fulfilled call
    whose [onServerConfigChange] returned, the failure message for a rejected
    call or a thrown error) and [onServerConfigChange] has
    been called for each fulfilled call in the order of settlement, so the
    last call of it belongs to the fulfilled call that settled last.  The
    URLs in the state are those of the second attempt in both orders. *)
Theorem last_settled_attempt_wins
    (w : World) (hs1 is1 hs2 is2 : string) (k1 k2 : Awaiter)
    (o1 o2 : Settled)
    (Hreach : reachable defaultConfig _t w)
    (H1 : is_default defaultConfig hs1 is1 = false)
    (H2 : is_default defaultConfig hs2 is2 = false) :
  let w1 := fst (validateAndApplyServer defaultConfig hs1 is1 k1 w) in
  let w2 := fst (validateAndApplyServer defaultConfig hs2 is2 k2 w1) in
  let p1 := nextCall w in
  let p2 := S (nextCall w) in
  exists wa wb,
    run defaultConfig _t [Settle p1 o1; Settle p2 o2] w2 = Some wa
    /\ run defaultConfig _t [Settle p2 o2; Settle p1 o1] w2 = Some wb
    /\ busy (state wa) = false
    /\ errorText (state wa) = shown_error _t o2
    /\ owner_calls (trace wa) =
         owner_calls (trace w) ++ told_owner o1 ++ told_owner o2
    /\ busy (state wb) = false
    /\ errorText (state wb) = shown_error _t o1
    /\ owner_calls (trace wb) =
         owner_calls (trace w) ++ told_owner o2 ++ told_owner o1
    /\ hsUrl (state wa) = hs2 /\ isUrl (state wa) = is2
    /\ hsUrl (state wb) = hs2 /\ isUrl (state wb) = is2.
Proof.
  intros w1 w2 p1 p2.
  destruct (reachable_well_formed w Hreach) as (_ & _ & Hc).
  destruct (validateAndApplyServer_suspends hs1 is1 k1 w H1)
    as (Hi1 & Hn1 & Hs1 & Ho1 & _).
  destruct (validateAndApplyServer_suspends hs2 is2 k2 w1 H2)
    as (Hi2 & Hn2 & Hs2 & Ho2 & _).
  fold w1 in Hi1, Hn1, Hs1, Ho1, Hi2, Hn2, Hs2, Ho2.
  fold w2 in Hi2, Hn2, Hs2, Ho2.
  rewrite Hi1, Hn1 in Hi2. fold p1 in Hc, Hi2.
  assert (Hp : p2 = S p1) by reflexivity.
  clearbody w2 w1 p2 p1. rewrite <- Hp in Hi2. clear Hi1 Hn1 Hn2.
  set (c1 := {| pid := p1; call_hsUrl := hs1; call_isUrl := is1;
                awaiter := k1 |}) in *.
  set (c2 := {| pid := p2; call_hsUrl := hs2; call_isUrl := is2;
                awaiter := k2 |}) in *.
  assert (Hkeep1 : filter (fun c => negb (Nat.eqb (pid c) p1)) (inflight w)
                   = inflight w) by (apply filter_fresh; exact Hc).
  assert (Hc' : Forall (fun c => pid c < p2) (inflight w))
    by (apply Forall_lt_weaken with (n := p1); [lia|exact Hc]).
  assert (Hkeep2 : filter (fun c => negb (Nat.eqb (pid c) p2)) (inflight w)
                   = inflight w) by (apply filter_fresh; exact Hc').
  assert (E12 : Nat.eqb p1 p2 = false) by (apply Nat.eqb_neq; lia).
  assert (E21 : Nat.eqb p2 p1 = false) by (apply Nat.eqb_neq; lia).
  (* first order: p1 then p2 *)
  assert (Hf1 : find (fun c => Nat.eqb (pid c) p1) (inflight w2) = Some c1).
  { rewrite Hi2, <- app_assoc, find_fresh by exact Hc.
    simpl. rewrite Nat.eqb_refl. reflexivity. }
  destruct (settle_outcome p1 o1 w2 c1 Hf1)
    as (wa1 & Ea1 & _ & _ & Hha1 & Hia1 & Hoa1 & _ & _ & Hina1 & _ & _).
  assert (Hfa : find (fun c => Nat.eqb (pid c) p2) (inflight wa1) = Some c2).
  { rewrite Hina1, Hi2, <- app_assoc, filter_app, Hkeep1,
      find_fresh by exact Hc'.
    simpl. rewrite Nat.eqb_refl, E21. simpl. rewrite Nat.eqb_refl.
    reflexivity. }
  destruct (settle_outcome p2 o2 wa1 c2 Hfa)
    as (wa & Ea & Hba & Hea & Hha & Hia & Hoa & _).
  (* second order: p2 then p1 *)
  assert (Hf2 : find (fun c => Nat.eqb (pid c) p2) (inflight w2) = Some c2).
  { rewrite Hi2, <- app_assoc, find_fresh by exact Hc'.
    simpl. rewrite E12, Nat.eqb_refl. reflexivity. }
  destruct (settle_outcome p2 o2 w2 c2 Hf2)
    as (wb1 & Eb1 & _ & _ & Hhb1 & Hib1 & Hob1 & _ & _ & Hinb1 & _ & _).
  assert (Hfb : find (fun c => Nat.eqb (pid c) p1) (inflight wb1) = Some c1).
  { rewrite Hinb1, Hi2, <- app_assoc, filter_app, Hkeep2,
      find_fresh by exact Hc.
    simpl. rewrite E12, Nat.eqb_refl. simpl. rewrite Nat.eqb_refl.
    reflexivity. }
  destruct (settle_outcome p1 o1 wb1 c1 Hfb)
    as (wb & Eb & Hbb & Heb & Hhb & Hib & Hob & _).
  exists wa, wb.
  assert (Hurl : hsUrl (state w2) = hs2 /\ isUrl (state w2) = is2)
    by (rewrite Hs2; split; reflexivity).
  destruct Hurl as [Hu1 Hu2].
  simpl. rewrite Ea1, Ea, Eb1, Eb.
  rewrite Hoa, Hoa1, Hob, Hob1, Ho2, Ho1, <- !app_assoc.
  rewrite Hha, Hha1, Hia, Hia1, Hhb, Hhb1, Hib, Hib1.
  repeat split; assumption.
Qed.

(** ** Debounce *)

Lemma onBlur_world (f : Field) (w : World) :
  let w' := onBlur f w in
  timers w' = without_timer (timeoutId f w) (timers w) ++
              [{| tid := nextTimer w;
                  due := now w + delayTimeMs (props w) |}]
  /\ nextTimer w' = S (nextTimer w)
  /\ timeoutId f w' = Some (nextTimer w)
  /\ state w' = state w
  /\ props w' = props w
  /\ now w' = now w
  /\ nextCall w' = nextCall w
  /\ inflight w' = inflight w
  /\ trace w' = trace w ++
       (if truthy_id (timeoutId f w) then
          match timeoutId f w with
          | Some id => [ClearTimeout id]
          | None => []
          end
        else []) ++
       [SetTimeout (nextTimer w) (delayTimeMs (props w))].
Proof.
  destruct f; simpl; unfold onHomeserverBlur, onIdentityServerBlur,
    _waitThenInvoke, without_timer.
  - destruct (_hsTimeoutId w) as [[|id]|]; simpl;
      rewrite <- ?app_assoc; repeat split; reflexivity.
  - destruct (_isTimeoutId w) as [[|id]|]; simpl;
      rewrite <- ?app_assoc; repeat split; reflexivity.
Qed.

Lemma without_timer_fresh (existing : option nat) (n : nat) (ts : list Timer) :
  Forall (fun t => tid t < n) ts ->
  Forall (fun t => tid t < n) (without_timer existing ts).
Proof.
  intros H. unfold without_timer.
  destruct existing as [[|id]|]; simpl; try exact H.
  apply Forall_filter_keep, H.
Qed.

(** ** Submit *)

Lemma onSubmit_world (w : World) :
  let w0 := emit StopPropagation (emit PreventDefault w) in
  onSubmit defaultConfig w =
  if is_default defaultConfig (hsUrl (state w)) (isUrl (state w)) then
    onSubmit_resume (Some defaultConfig)
      (emit (ServerConfigChange defaultConfig)
         (setState {| set_busy := Some false; set_errorText := Some "";
                      set_hsUrl := None; set_isUrl := None |} w0))
  else
    fst (validateServerConfigWithStaticUrls
           (hsUrl (state w)) (isUrl (state w)) SubmitHandler
           (setState {| set_busy := Some true; set_errorText := Some "";
                        set_hsUrl := Some (hsUrl (state w));
                        set_isUrl := Some (isUrl (state w)) |} w0)).
Proof.
  unfold onSubmit, validateServer, validateAndApplyServer. simpl.
  destruct (is_default defaultConfig (hsUrl (state w)) (isUrl (state w)));
    reflexivity.
Qed.

Lemma settle_twice (id : nat) (o o' : Settled) (w w' : World) :
  settle _t id o w = Some w' -> settle _t id o' w' = None.
Proof.
  unfold settle at 1.
  destruct (find _ (inflight w)) as [c|] eqn:Hf; [|discriminate].
  destruct (settle_outcome id o w c Hf) as (w3 & E & H).
  unfold settle at 1 in E. rewrite Hf in E. rewrite E.
  intros Hw. injection Hw as <-.
  destruct H as (_ & _ & _ & _ & _ & _ & _ & Hin & _).
  unfold settle. rewrite Hin, (find_filter_out pid). reflexivity.
Qed.

(** C8: [onSubmit] runs the validation routine on the URLs currently in
    the state.  On the fast path the routine returns the default
    configuration and [onAfterSubmit], when supplied, is called exactly
    once, in the same turn.  On the slow path the handler waits for the
    discovery call it started; nothing is called in the meantime; when the
    call is rejected (or [onServerConfigChange] throws after a fulfilled
    call) the routine returns null and [onAfterSubmit] is not called; when
    the call is fulfilled and the routine returns the result,
    [onAfterSubmit], when supplied, is called exactly once; and the call
    cannot settle a second time. *)
Theorem onSubmit_after_submit (w : World)
    (Hreach : reachable defaultConfig _t w) :
  (is_default defaultConfig (hsUrl (state w)) (isUrl (state w)) = true ->
     let w' := onSubmit defaultConfig w in
     after_submit_calls (trace w') =
       after_submit_calls (trace w) +
       (if onAfterSubmit (props w) then 1 else 0)
     /\ owner_calls (trace w') = owner_calls (trace w) ++ [defaultConfig]
     /\ validate_calls (trace w') = validate_calls (trace w)
     /\ inflight w' = inflight w)
  /\ (is_default defaultConfig (hsUrl (state w)) (isUrl (state w)) = false ->
      let w1 := onSubmit defaultConfig w in
      after_submit_calls (trace w1) = after_submit_calls (trace w)
      /\ validate_calls (trace w1) =
           validate_calls (trace w) ++
           [(nextCall w, hsUrl (state w), isUrl (state w))]
      /\ find (fun c => Nat.eqb (pid c) (nextCall w)) (inflight w1) =
           Some {| pid := nextCall w;
                   call_hsUrl := hsUrl (state w);
                   call_isUrl := isUrl (state w);
                   awaiter := SubmitHandler |}
      /\ forall o : Settled,
           exists w3,
             settle _t (nextCall w) o w1 = Some w3
             /\ snd (validateAndApplyServer_resume _t o w1) =
                  match o with
                  | Resolved result => Some result
                  | Rejected _ | OwnerThrew _ _ => None
                  end
             /\ after_submit_calls (trace w3) =
                  after_submit_calls (trace w) +
                  match o with
                  | Resolved _ => if onAfterSubmit (props w) then 1 else 0
                  | Rejected _ | OwnerThrew _ _ => 0
                  end
             /\ forall o', settle _t (nextCall w) o' w3 = None)
  /\ (forall (w2 : World) (id : nat) (c : Call) (o : Settled),
        find (fun c => Nat.eqb (pid c) id) (inflight w2) = Some c ->
        exists w3,
          settle _t id o w2 = Some w3
          /\ after_submit_calls (trace w3) =
               after_submit_calls (trace w2) +
               match awaiter c, o with
               | SubmitHandler, Resolved _ =>
                   if onAfterSubmit (props w2) then 1 else 0
               | _, _ => 0
               end).
Proof.
  destruct (reachable_well_formed w Hreach) as (_ & _ & Hc).
  pose proof (onSubmit_world w) as Hw. cbv zeta in Hw.
  split; [|split].
  - intros Hd. cbv zeta. rewrite Hw, Hd. unfold onSubmit_resume. simpl.
    destruct (onAfterSubmit (props w)); simpl;
      rewrite <- ?app_assoc, after_submit_calls_app, owner_calls_app,
        validate_calls_app; simpl;
      rewrite ?app_nil_r, ?Nat.add_0_r; repeat split; reflexivity.
  - intros Hd. cbv zeta. rewrite Hw, Hd.
    set (w1 := fst (validateServerConfigWithStaticUrls _ _ _ _)).
    assert (Ha : after_submit_calls (trace w1) = after_submit_calls (trace w)).
    { subst w1. simpl. rewrite <- !app_assoc, after_submit_calls_app. simpl.
      apply Nat.add_0_r. }
    assert (Hf : find (fun c => Nat.eqb (pid c) (nextCall w)) (inflight w1) =
                 Some {| pid := nextCall w;
                         call_hsUrl := hsUrl (state w);
                         call_isUrl := isUrl (state w);
                         awaiter := SubmitHandler |}).
    { subst w1. simpl. rewrite (find_fresh pid) by exact Hc.
      simpl. rewrite Nat.eqb_refl. reflexivity. }
    assert (Hp : props w1 = props w) by reflexivity.
    split; [exact Ha|]. split; [|split; [exact Hf|]].
    + subst w1. simpl. rewrite <- !app_assoc, validate_calls_app. reflexivity.
    + intro o.
      destruct (settle_outcome (nextCall w) o w1 _ Hf)
        as (w3 & E & _ & _ & _ & _ & _ & _ & Has & _).
      exists w3. split; [exact E|]. split; [destruct o; reflexivity|].
      split.
      * rewrite Has, Ha, Hp. simpl. destruct o; reflexivity.
      * intro o'. eapply settle_twice. exact E.
  - intros w2 id c o Hf.
    destruct (settle_outcome id o w2 c Hf)
      as (w3 & E & _ & _ & _ & _ & _ & _ & Has & _).
    exists w3. split; [exact E|exact Has].
Qed.

(** ** External configuration changes *)

(** The three cases of [componentWillReceiveProps]: the new URLs are those
    of the state; they differ and are custom; they differ and are the
    default ones. *)
Lemma componentWillReceiveProps_cases (newProps : Props) (w : World) :
  let hsN := ValidatedServerConfig.hsUrl (serverConfig newProps) in
  let isN := ValidatedServerConfig.isUrl (serverConfig newProps) in
  let w' := componentWillReceiveProps defaultConfig newProps w in
  (hsN = hsUrl (state w) /\ isN = isUrl (state w) -> w' = w)
  /\ (~ (hsN = hsUrl (state w) /\ isN = isUrl (state w)) ->
      is_default defaultConfig hsN isN = false ->
      state w' = {| busy := true; errorText := "";
                    hsUrl := hsN; isUrl := isN |}
      /\ validate_calls (trace w') =
           validate_calls (trace w) ++ [(nextCall w, hsN, isN)])
  /\ (~ (hsN = hsUrl (state w) /\ isN = isUrl (state w)) ->
      is_default defaultConfig hsN isN = true ->
      hsUrl (state w') = hsUrl (state w)
      /\ isUrl (state w') = isUrl (state w)
      /\ validate_calls (trace w') = validate_calls (trace w)
      /\ owner_calls (trace w') = owner_calls (trace w) ++ [defaultConfig]).
Proof.
  intros hsN isN w'. subst w'. unfold componentWillReceiveProps.
  fold hsN isN.
  destruct (String.eqb hsN (hsUrl (state w)) &&
            String.eqb isN (isUrl (state w))) eqn:E.
  - apply andb_true_iff in E. rewrite !String.eqb_eq in E.
    split; [reflexivity|]. split; intros Hn; contradiction.
  - assert (Hn : ~ (hsN = hsUrl (state w) /\ isN = isUrl (state w))).
    { intros [Ha Hb]. rewrite Ha, Hb, !String.eqb_refl in E. discriminate. }
    split; [intros Hs; contradiction|].
    split; intros _ Hd.
    + destruct (validateAndApplyServer_suspends hsN isN Dropped w Hd)
        as (_ & _ & Hs & _).
      destruct (validateAndApplyServer_frame hsN isN Dropped w)
        as (_ & _ & _ & _ & Hv & _).
      rewrite Hd in Hv. split; assumption.
    + destruct (validateAndApplyServer_frame hsN isN Dropped w)
        as (_ & _ & _ & _ & Hv & _).
      rewrite Hd, app_nil_r in Hv.
      rewrite validateAndApplyServer_world, Hd in *. simpl.
      rewrite <- app_assoc, owner_calls_app. simpl.
      repeat split; try reflexivity.
      simpl in Hv. rewrite <- app_assoc in Hv. exact Hv.
Qed.

End Properties.

(** * Concrete runs *)

(** The default configuration is [matrix_org] and messages are in English. *)

(** C7: the component shows the custom server of [custom_example]; the owner
    then passes the default configuration.  [componentWillReceiveProps]
    reports the default configuration to the owner, and the URL in the state
    is still the custom one. *)
Theorem componentWillReceiveProps_default_keeps_edits :
  let w := constructor (props_of custom_example 0 false) in
  let w' := componentWillReceiveProps matrix_org (props_of matrix_org 0 false) w in
  hsUrl (state w) = "https://custom.example"
  /\ ValidatedServerConfig.hsUrl (serverConfig (props_of matrix_org 0 false))
     = "https://matrix.org"
  /\ hsUrl (state w') = "https://custom.example"
  /\ isUrl (state w') = "https://vector.im"
  /\ trace w' =
       [SetState {| set_busy := Some false; set_errorText := Some "";
                    set_hsUrl := None; set_isUrl := None |};
        ServerConfigChange matrix_org].
Proof.
  repeat split; reflexivity.
Qed.


Lemma validateAndApplyServer_custom_witness :
  ~ ("https://custom.example" = ValidatedServerConfig.hsUrl matrix_org
     /\ "https://vector.im" = ValidatedServerConfig.isUrl matrix_org)
  /\ snd (validateAndApplyServer matrix_org "https://custom.example"
            "https://vector.im" Dropped
            (constructor (props_of matrix_org 0 false)))
     = Suspended 0.
Proof.
  assert (Hc : ~ ("https://custom.example" = ValidatedServerConfig.hsUrl matrix_org
                  /\ "https://vector.im" = ValidatedServerConfig.isUrl matrix_org))
    by (intros [H _]; discriminate H).
  split; [exact Hc|].
  pose proof (proj1 (validateAndApplyServer_custom matrix_org english
                "https://custom.example" "https://vector.im" Dropped
                (constructor (props_of matrix_org 0 false)) Hc)) as H.
  exact (proj1 H).
Defined.

(** C2, as stated, fails when the owner's callback throws.  The discovery
    call on the custom URLs is fulfilled with [custom_example];
    [onServerConfigChange] is called with it and throws; the [catch] block
    logs the thrown error and shows the fallback message, and the routine
    returns null, not the configuration. *)
Lemma owner_callback_throw_returns_null :
  let w1 := fst (validateAndApplyServer matrix_org
                   "https://custom.example" "https://vector.im" Dropped
                   (constructor (props_of matrix_org 0 false))) in
  let w3 := fst (validateAndApplyServer_resume english
                   (OwnerThrew custom_example callback_error) w1) in
  validate_calls (trace w1)
    = [(0, "https://custom.example", "https://vector.im")]
  /\ snd (validateAndApplyServer_resume english
            (OwnerThrew custom_example callback_error) w1) = None
  /\ snd (validateAndApplyServer_resume english
            (OwnerThrew custom_example callback_error) w1)
     <> Some custom_example
  /\ owner_calls (trace w3) = [custom_example]
  /\ logged_errors (trace w3) = [callback_error]
  /\ state w3 = {| busy := false;
                   errorText := "Unable to validate homeserver/identity server";
                   hsUrl := "https://custom.example";
                   isUrl := "https://vector.im" |}
  /\ errorText (state w3) <> "".
Proof.
  repeat split; try reflexivity; discriminate.
Qed.

Lemma validateAndApplyServer_rejected_witness :
  translatedMessage bad_server = Some "Bad server"
  /\ "Bad server" <> ""
  /\ failure_message english bad_server = "Bad server"
  /\ failure_message english bare_error = fallback_message.
Proof.
  assert (Hne : "Bad server" <> "") by discriminate.
  split; [reflexivity|]. split; [exact Hne|]. split.
  - exact (proj1 (proj2 (validateAndApplyServer_rejected english bad_server
                           (constructor (props_of custom_example 0 false))))
                 "Bad server" eq_refl Hne).
  - exact (proj1 (proj2 (proj2 (validateAndApplyServer_rejected english
                                  bare_error
                                  (constructor (props_of custom_example 0 false)))))
                 (or_introl eq_refl)).
Defined.

(** C3, as stated, fails for an error whose [translatedMessage] is present
    and empty: the field is falsy, so the fallback message is shown, not the
    (empty) message of the error. *)
Lemma empty_translatedMessage_shows_fallback :
  translatedMessage empty_message_error = Some ""
  /\ errorText (state (fst (validateAndApplyServer_resume english
                              (Rejected empty_message_error)
                              (constructor (props_of custom_example 0 false)))))
     = "Unable to validate homeserver/identity server"
  /\ failure_message_when_present english empty_message_error = ""
  /\ failure_message english empty_message_error
     <> failure_message_when_present english empty_message_error.
Proof.
  repeat split; try reflexivity. discriminate.
Qed.

Lemma default_urls_not_adopted_witness :
  "https://matrix.org" = ValidatedServerConfig.hsUrl matrix_org
  /\ "https://vector.im" = ValidatedServerConfig.isUrl matrix_org
  /\ hsUrl (state (componentWillReceiveProps matrix_org
                     (props_of matrix_org 0 false)
                     (constructor (props_of custom_example 0 false))))
     = "https://custom.example".
Proof.
  split; [reflexivity|]. split; [reflexivity|].
  exact (proj1 (proj2 (default_urls_not_adopted matrix_org
                         "https://matrix.org" "https://vector.im" Dropped
                         (constructor (props_of custom_example 0 false))
                         eq_refl eq_refl)
                      (props_of matrix_org 0 false) eq_refl eq_refl)).
Defined.

Lemma busy_implies_error_cleared_witness :
  exists w,
    run matrix_org english
        [HomeserverChange "https://custom.example"; HomeserverBlur; Fire 1]
        (constructor (props_of matrix_org 0 false)) = Some w
    /\ reachable matrix_org english w
    /\ busy (state w) = true
    /\ errorText (state w) = "".
Proof.
  eexists. split; [reflexivity|].
  match goal with |- reachable _ _ ?w /\ _ =>
    assert (Hr : reachable matrix_org english w)
  end.
  { apply (run_reachable matrix_org english
             [HomeserverChange "https://custom.example"; HomeserverBlur; Fire 1]
             (constructor (props_of matrix_org 0 false)));
      [apply reach_init|reflexivity]. }
  split; [exact Hr|]. split; [reflexivity|].
  exact (proj1 (busy_implies_error_cleared matrix_org english _ Hr) eq_refl).
Defined.

Lemma last_settled_attempt_wins_witness :
  reachable matrix_org english (constructor (props_of matrix_org 0 false))
  /\ is_default matrix_org "https://custom.example" "https://vector.im" = false
  /\ is_default matrix_org "https://other.example" "https://vector.im" = false
  /\ exists wa wb,
       run matrix_org english
           [Settle 0 (Rejected bad_server); Settle 1 (Resolved other_example)]
           (fst (validateAndApplyServer matrix_org
                   "https://other.example" "https://vector.im" Dropped
                   (fst (validateAndApplyServer matrix_org
                           "https://custom.example" "https://vector.im" Dropped
                           (constructor (props_of matrix_org 0 false))))))
         = Some wa
       /\ run matrix_org english
           [Settle 1 (Resolved other_example); Settle 0 (Rejected bad_server)]
           (fst (validateAndApplyServer matrix_org
                   "https://other.example" "https://vector.im" Dropped
                   (fst (validateAndApplyServer matrix_org
                           "https://custom.example" "https://vector.im" Dropped
                           (constructor (props_of matrix_org 0 false))))))
         = Some wb
       /\ errorText (state wa) = ""
       /\ errorText (state wb) = "Bad server".
Proof.
  assert (Hr : reachable matrix_org english
                 (constructor (props_of matrix_org 0 false)))
    by apply reach_init.
  split; [exact Hr|]. split; [reflexivity|]. split; [reflexivity|].
  destruct (last_settled_attempt_wins matrix_org english
              (constructor (props_of matrix_org 0 false))
              "https://custom.example" "https://vector.im"
              "https://other.example" "https://vector.im"
              Dropped Dropped (Rejected bad_server) (Resolved other_example)
              Hr eq_refl eq_refl)
    as (wa & wb & Ha & Hb & _ & Hea & _ & _ & Heb & _).
  exists wa, wb.
  split; [exact Ha|]. split; [exact Hb|]. split; [exact Hea|exact Heb].
Defined.

(** C4, as stated, fails.  The owner passes [custom_example], then
    [other_example], while the first discovery call is in flight; the second
    call is fulfilled, then the first is rejected.  The attempt started last
    succeeded, and the state shows the error of the first. *)
Lemma stale_rejection_overwrites_latest :
  (exists w',
     run matrix_org english
         [ReceiveProps (props_of custom_example 0 false);
          ReceiveProps (props_of other_example 0 false);
          Settle 1 (Resolved other_example);
          Settle 0 (Rejected bad_server)]
         (constructor (props_of matrix_org 0 false)) = Some w'
     /\ validate_calls (trace w') =
          [(0, "https://custom.example", "https://vector.im");
           (1, "https://other.example", "https://vector.im")]
     /\ state w' = {| busy := false; errorText := "Bad server";
                      hsUrl := "https://other.example";
                      isUrl := "https://vector.im" |}
     /\ shown_error english (Resolved other_example) = "")
  /\ ~ latest_triggered_attempt_wins matrix_org english.
Proof.
  split.
  - eexists. split; [vm_compute; reflexivity|].
    split; [vm_compute; reflexivity|].
    split; [vm_compute; reflexivity|reflexivity].
  - intro H.
    set (w0 := constructor (props_of matrix_org 0 false)).
    set (w2 := fst (validateAndApplyServer matrix_org
                      "https://other.example" "https://vector.im" Dropped
                      (fst (validateAndApplyServer matrix_org
                              "https://custom.example" "https://vector.im"
                              Dropped w0)))).
    destruct (run matrix_org english
                [Settle 1 (Resolved other_example);
                 Settle 0 (Rejected bad_server)] w2) as [w'|] eqn:E;
      [|vm_compute in E; discriminate].
    destruct (H w0 w' "https://custom.example" "https://vector.im"
                "https://other.example" "https://vector.im"
                (Rejected bad_server) (Resolved other_example)
                (reach_init _ _ _) eq_refl eq_refl (or_intror E))
      as (_ & He & _).
    vm_compute in E. injection E as <-. vm_compute in He. discriminate.
Qed.


Lemma onSubmit_after_submit_witness :
  reachable matrix_org english (constructor (props_of custom_example 0 true))
  /\ (exists w3,
        settle english 0 (Resolved custom_example)
               (onSubmit matrix_org (constructor (props_of custom_example 0 true)))
          = Some w3
        /\ after_submit_calls (trace w3) = 1)
  /\ (exists w3,
        settle english 0 (Rejected bad_server)
               (onSubmit matrix_org (constructor (props_of custom_example 0 true)))
          = Some w3
        /\ after_submit_calls (trace w3) = 0).
Proof.
  assert (Hr : reachable matrix_org english
                 (constructor (props_of custom_example 0 true)))
    by apply reach_init.
  split; [exact Hr|].
  destruct (onSubmit_after_submit matrix_org english _ Hr) as (_ & H & _).
  destruct (H eq_refl) as (_ & _ & _ & Hs).
  split.
  - destruct (Hs (Resolved custom_example)) as (w3 & E & _ & Ha & _).
    exists w3. split; [exact E|exact Ha].
  - destruct (Hs (Rejected bad_server)) as (w3 & E & _ & Ha & _).
    exists w3. split; [exact E|exact Ha].
Defined.

(** * Further properties *)

Section Further.

Variable defaultConfig : ValidatedServerConfig.t.
Variable _t : string -> string.

(** ** What one turn of the event loop leaves alone *)

Lemma logged_errors_app (a b : list Effect) :
  logged_errors (a ++ b) = logged_errors a ++ logged_errors b.
Proof.
  induction a as [|e a IH]; simpl; [reflexivity|].
  destruct e; simpl; rewrite ?IH; reflexivity.
Qed.

(** The worlds [validateAndApplyServer] can hand back, field by field. *)
Lemma validateAndApplyServer_started
    (hsU isU : string) (k : Awaiter) (w : World) :
  let w' := fst (validateAndApplyServer defaultConfig hsU isU k w) in
  _hsTimeoutId w' = _hsTimeoutId w
  /\ _isTimeoutId w' = _isTimeoutId w
  /\ (if is_default defaultConfig hsU isU then
        state w' = {| busy := false; errorText := "";
                      hsUrl := hsUrl (state w); isUrl := isUrl (state w) |}
        /\ inflight w' = inflight w
        /\ nextCall w' = nextCall w
      else
        state w' = {| busy := true; errorText := "";
                      hsUrl := hsU; isUrl := isU |}
        /\ inflight w' = inflight w ++
             [{| pid := nextCall w; call_hsUrl := hsU; call_isUrl := isU;
                 awaiter := k |}]
        /\ nextCall w' = S (nextCall w))
  /\ logged_errors (trace w') = logged_errors (trace w).
Proof.
  cbv zeta. rewrite validateAndApplyServer_world.
  destruct (is_default defaultConfig hsU isU); simpl;
    rewrite <- ?app_assoc, logged_errors_app; simpl;
    rewrite ?app_nil_r; repeat split; reflexivity.
Qed.

Lemma onSubmit_resume_frame
    (r : option ValidatedServerConfig.t) (w : World) :
  let w' := onSubmit_resume r w in
  state w' = state w
  /\ inflight w' = inflight w
  /\ nextCall w' = nextCall w
  /\ timers w' = timers w
  /\ nextTimer w' = nextTimer w
  /\ _hsTimeoutId w' = _hsTimeoutId w
  /\ _isTimeoutId w' = _isTimeoutId w
  /\ logged_errors (trace w') = logged_errors (trace w).
Proof.
  unfold onSubmit_resume. destruct r; [|repeat split; reflexivity].
  destruct (onAfterSubmit (props w)); simpl;
    rewrite ?logged_errors_app; simpl; rewrite ?app_nil_r;
    repeat split; reflexivity.
Qed.

(** [onSubmit] is [validateServer] on the same state, as far as the state,
    the calls and the timers go. *)
Lemma onSubmit_as_validateServer (w : World) :
  let w' := onSubmit defaultConfig w in
  let v := fst (validateServer defaultConfig SubmitHandler w) in
  state w' = state v
  /\ inflight w' = inflight v
  /\ nextCall w' = nextCall v
  /\ timers w' = timers v
  /\ nextTimer w' = nextTimer v
  /\ _hsTimeoutId w' = _hsTimeoutId v
  /\ _isTimeoutId w' = _isTimeoutId v
  /\ logged_errors (trace w') = logged_errors (trace v).
Proof.
  cbv zeta. rewrite onSubmit_world. unfold validateServer.
  rewrite validateAndApplyServer_world.
  destruct (is_default defaultConfig (hsUrl (state w)) (isUrl (state w))).
  - destruct (onSubmit_resume_frame (Some defaultConfig)
                (emit (ServerConfigChange defaultConfig)
                   (setState {| set_busy := Some false;
                                set_errorText := Some "";
                                set_hsUrl := None; set_isUrl := None |}
                      (emit StopPropagation (emit PreventDefault w)))))
      as (H1 & H2 & H3 & H4 & H5 & H6 & H7 & H8).
    rewrite H1, H2, H3, H4, H5, H6, H7, H8. simpl.
    rewrite <- !app_assoc, !logged_errors_app. simpl.
    repeat split; reflexivity.
  - simpl. rewrite <- !app_assoc, !logged_errors_app. simpl.
    repeat split; reflexivity.
Qed.

(** ** While busy, a discovery call is pending *)

Lemma busy_awaits_latest_ext (w w' : World) :
  state w' = state w -> inflight w' = inflight w -> nextCall w' = nextCall w ->
  busy_awaits_latest w -> busy_awaits_latest w'.
Proof.
  unfold busy_awaits_latest. intros -> -> ->. trivial.
Qed.

Lemma busy_awaits_latest_started
    (hsU isU : string) (k : Awaiter) (w : World) :
  busy_awaits_latest
    (fst (validateAndApplyServer defaultConfig hsU isU k w)).
Proof.
  destruct (validateAndApplyServer_started hsU isU k w) as (_ & _ & H & _).
  unfold busy_awaits_latest.
  destruct (is_default defaultConfig hsU isU);
    destruct H as (Hs & Hi & Hn); rewrite Hs, Hi, Hn; simpl.
  - discriminate.
  - intros _. eexists. split; [apply in_or_app; right; left; reflexivity|].
    reflexivity.
Qed.

Lemma busy_awaits_latest_step (ev : Event) (w w' : World) :
  busy_awaits_latest w -> step defaultConfig _t ev w = Some w' ->
  busy_awaits_latest w'.
Proof.
  intros Hw Hs. destruct ev; simpl in Hs.
  - injection Hs as <-.
    apply (busy_awaits_latest_ext
             (componentWillReceiveProps defaultConfig newProps w));
      try reflexivity.
    unfold componentWillReceiveProps.
    destruct (_ && _); [exact Hw|apply busy_awaits_latest_started].
  - injection Hs as <-. exact Hw.
  - injection Hs as <-.
    destruct (onBlur_world Homeserver w) as (_ & _ & _ & H1 & _ & _ & H2 & H3 & _).
    apply (busy_awaits_latest_ext w); assumption.
  - injection Hs as <-. exact Hw.
  - injection Hs as <-.
    destruct (onBlur_world IdentityServer w)
      as (_ & _ & _ & H1 & _ & _ & H2 & H3 & _).
    apply (busy_awaits_latest_ext w); assumption.
  - injection Hs as <-.
    destruct (onSubmit_as_validateServer w) as (H1 & H2 & H3 & _).
    apply (busy_awaits_latest_ext
             (fst (validateServer defaultConfig SubmitHandler w)));
      try assumption.
    apply busy_awaits_latest_started.
  - injection Hs as <-. apply (busy_awaits_latest_ext w); trivial.
  - unfold fire in Hs.
    destruct (find _ (timers w)) as [t|]; [|discriminate].
    destruct (Nat.leb (due t) (now w)); [|discriminate].
    injection Hs as <-. apply busy_awaits_latest_started.
  - unfold settle in Hs.
    destruct (find _ (inflight w)) as [c|] eqn:Hf; [|discriminate].
    destruct (settle_outcome _t id o w c Hf) as (w3 & E & Hb & _).
    unfold settle in E. rewrite Hf in E. rewrite E in Hs.
    injection Hs as <-. unfold busy_awaits_latest. rewrite Hb. discriminate.
Qed.

(** X1: in every world the component can reach, [busy = true] (fields and
    submit button disabled) implies that the discovery call made last is
    still in flight: the form is never left disabled with nothing pending. *)
Theorem busy_means_call_in_flight (w : World)
    (Hreach : reachable defaultConfig _t w)
    (Hbusy : busy (state w) = true) :
  inflight w <> []
  /\ exists c, In c (inflight w) /\ S (pid c) = nextCall w.
Proof.
  assert (Hinv : busy_awaits_latest w).
  { clear Hbusy. induction Hreach as [p|w ev w' _ IH Hs].
    - intro H. discriminate H.
    - eapply busy_awaits_latest_step; eassumption. }
  destruct (Hinv Hbusy) as (c & Hin & Hp).
  split; [|exists c; split; assumption].
  intro E. rewrite E in Hin. exact Hin.
Qed.

(** ** Every error on display was logged *)

Lemma shown_error_logged_ext (w w' : World) :
  errorText (state w') = errorText (state w) ->
  logged_errors (trace w') = logged_errors (trace w) ->
  shown_error_logged _t w -> shown_error_logged _t w'.
Proof.
  unfold shown_error_logged. intros -> ->. trivial.
Qed.

Lemma shown_error_logged_started
    (hsU isU : string) (k : Awaiter) (w : World) :
  shown_error_logged _t
    (fst (validateAndApplyServer defaultConfig hsU isU k w)).
Proof.
  destruct (validateAndApplyServer_started hsU isU k w) as (_ & _ & H & _).
  left. destruct (is_default defaultConfig hsU isU);
    destruct H as (Hs & _); rewrite Hs; reflexivity.
Qed.

Lemma shown_error_logged_settle (id : nat) (o : Settled) (w w' : World) :
  settle _t id o w = Some w' -> shown_error_logged _t w'.
Proof.
  unfold settle. destruct (find _ (inflight w)) as [c|]; [|discriminate].
  destruct o as [result|e|result thrown]; simpl; intros Hs;
    injection Hs as <-.
  - left. destruct (awaiter c); simpl; [reflexivity|].
    destruct (onAfterSubmit _); reflexivity.
  - right. exists e. destruct (awaiter c); simpl;
      rewrite <- ?app_assoc, logged_errors_app; simpl;
      (split; [apply in_or_app; right; left; reflexivity|reflexivity]).
  - right. exists thrown. destruct (awaiter c); simpl;
      rewrite <- ?app_assoc, !logged_errors_app; simpl;
      (split; [apply in_or_app; right; left; reflexivity|reflexivity]).
Qed.

Lemma shown_error_logged_step (ev : Event) (w w' : World) :
  shown_error_logged _t w -> step defaultConfig _t ev w = Some w' ->
  shown_error_logged _t w'.
Proof.
  intros Hw Hs. destruct ev; simpl in Hs.
  - injection Hs as <-.
    apply (shown_error_logged_ext
             (componentWillReceiveProps defaultConfig newProps w));
      try reflexivity.
    unfold componentWillReceiveProps.
    destruct (_ && _); [exact Hw|apply shown_error_logged_started].
  - injection Hs as <-. apply (shown_error_logged_ext w); [reflexivity| |exact Hw].
    simpl. rewrite logged_errors_app. simpl. apply app_nil_r.
  - injection Hs as <-.
    change (onHomeserverBlur w) with (onBlur Homeserver w).
    pose proof (onBlur_world Homeserver w) as H. cbv zeta in H.
    destruct H as (_ & _ & _ & H1 & _ & _ & _ & _ & H2).
    apply (shown_error_logged_ext w); [rewrite H1; reflexivity| |exact Hw].
    rewrite H2, !logged_errors_app.
    destruct (truthy_id _); [destruct (timeoutId _ _)|]; simpl;
      rewrite ?app_nil_r; reflexivity.
  - injection Hs as <-. apply (shown_error_logged_ext w); [reflexivity| |exact Hw].
    simpl. rewrite logged_errors_app. simpl. apply app_nil_r.
  - injection Hs as <-.
    change (onIdentityServerBlur w) with (onBlur IdentityServer w).
    pose proof (onBlur_world IdentityServer w) as H. cbv zeta in H.
    destruct H as (_ & _ & _ & H1 & _ & _ & _ & _ & H2).
    apply (shown_error_logged_ext w); [rewrite H1; reflexivity| |exact Hw].
    rewrite H2, !logged_errors_app.
    destruct (truthy_id _); [destruct (timeoutId _ _)|]; simpl;
      rewrite ?app_nil_r; reflexivity.
  - injection Hs as <-.
    destruct (onSubmit_as_validateServer w)
      as (H1 & _ & _ & _ & _ & _ & _ & H2).
    apply (shown_error_logged_ext
             (fst (validateServer defaultConfig SubmitHandler w)));
      [rewrite H1; reflexivity|exact H2|].
    apply shown_error_logged_started.
  - injection Hs as <-. exact Hw.
  - unfold fire in Hs.
    destruct (find _ (timers w)) as [t|]; [|discriminate].
    destruct (Nat.leb (due t) (now w)); [|discriminate].
    injection Hs as <-. apply shown_error_logged_started.
  - eapply shown_error_logged_settle. exact Hs.
Qed.

(** X2: in every world the component can reach, an [errorText] that is not
    empty is the failure message of an error that was passed to
    [console.error] before: nothing is shown that was not logged. *)
Theorem shown_error_was_logged (w : World)
    (Hreach : reachable defaultConfig _t w)
    (Hshown : errorText (state w) <> "") :
  exists e, In e (logged_errors (trace w))
            /\ errorText (state w) = failure_message _t e.
Proof.
  assert (Hinv : shown_error_logged _t w).
  { clear Hshown. induction Hreach as [p|w ev w' _ IH Hs].
    - left. reflexivity.
    - eapply shown_error_logged_step; eassumption. }
  destruct Hinv as [H|H]; [contradiction|exact H].
Qed.

(** ** Validation keeps the edits *)

(** X3: a turn of the event loop that is neither a field change nor a new
    configuration from the owner (a blur, a submit, a timer firing, a
    discovery call settling, time passing) leaves [state.hsUrl] and
    [state.isUrl] as they are: validating never rewrites what was typed. *)
Theorem validation_keeps_edits (ev : Event) (w w' : World)
    (Hstep : step defaultConfig _t ev w = Some w')
    (Hev : edits_urls ev = false) :
  hsUrl (state w') = hsUrl (state w) /\ isUrl (state w') = isUrl (state w).
Proof.
  destruct ev; simpl in Hev; try discriminate Hev; simpl in Hstep.
  - injection Hstep as <-. change (onHomeserverBlur w) with (onBlur Homeserver w).
    pose proof (onBlur_world Homeserver w) as H. cbv zeta in H.
    destruct H as (_ & _ & _ & H & _). rewrite H. split; reflexivity.
  - injection Hstep as <-.
    change (onIdentityServerBlur w) with (onBlur IdentityServer w).
    pose proof (onBlur_world IdentityServer w) as H. cbv zeta in H.
    destruct H as (_ & _ & _ & H & _). rewrite H. split; reflexivity.
  - injection Hstep as <-.
    destruct (onSubmit_as_validateServer w) as (H1 & _). rewrite H1.
    unfold validateServer.
    destruct (validateAndApplyServer_started
                (hsUrl (state w)) (isUrl (state w)) SubmitHandler w)
      as (_ & _ & H & _).
    destruct (is_default defaultConfig _ _); destruct H as (Hs & _);
      rewrite Hs; split; reflexivity.
  - injection Hstep as <-. split; reflexivity.
  - unfold fire in Hstep.
    destruct (find _ (timers w)) as [t|]; [|discriminate].
    destruct (Nat.leb (due t) (now w)); [|discriminate].
    injection Hstep as <-. unfold validateServer.
    set (w0 := with_timers _ w).
    destruct (validateAndApplyServer_started
                (hsUrl (state w0)) (isUrl (state w0)) Dropped w0)
      as (_ & _ & H & _).
    destruct (is_default defaultConfig _ _); destruct H as (Hs & _);
      rewrite Hs; split; reflexivity.
  - unfold settle in Hstep.
    destruct (find _ (inflight w)) as [c|] eqn:Hf; [|discriminate].
    destruct (settle_outcome _t id o w c Hf) as (w3 & E & _ & _ & H1 & H2 & _).
    unfold settle in E. rewrite Hf in E. rewrite E in Hstep.
    injection Hstep as <-. split; assumption.
Qed.

(** ** One timer per field *)

Lemma NoDup_map_filter {A B : Type} (g : A -> B) (p : A -> bool) (l : list A) :
  NoDup (map g l) -> NoDup (map g (filter p l)).
Proof.
  induction l as [|x l IH]; simpl; [trivial|].
  intros H. inversion H as [|y l' Hnin Hnd]; subst.
  destruct (p x); simpl; [|exact (IH Hnd)].
  constructor; [|exact (IH Hnd)].
  intro Hin. apply Hnin. apply in_map_iff in Hin.
  destruct Hin as (z & Hz & Hin). apply in_map_iff. exists z.
  split; [exact Hz|]. apply filter_In in Hin. apply Hin.
Qed.

Lemma NoDup_snoc {A : Type} (x : A) (l : list A) :
  NoDup l -> ~ In x l -> NoDup (l ++ [x]).
Proof.
  induction l as [|y l IH]; simpl; intros Hnd Hnin.
  - constructor; [intros []|constructor].
  - inversion Hnd as [|z l' Hy Hl]; subst. constructor.
    + intro Hin. apply in_app_or in Hin. destruct Hin as [Hin|[->|[]]].
      * exact (Hy Hin).
      * apply Hnin. left. reflexivity.
    + apply IH; [exact Hl|]. intro Hin. apply Hnin. right. exact Hin.
Qed.

Lemma NoDup_map_Some {A : Type} (l : list A) :
  NoDup l -> NoDup (map Some l).
Proof.
  induction 1 as [|x l Hnin _ IH]; simpl; constructor; [|exact IH].
  intro Hin. apply in_map_iff in Hin. destruct Hin as (y & E & Hy).
  injection E as ->. exact (Hnin Hy).
Qed.

Lemma without_timer_sub (existing : option nat) (ts : list Timer) (t : Timer) :
  In t (without_timer existing ts) -> In t ts.
Proof.
  unfold without_timer. destruct existing as [[|id]|]; simpl; trivial.
  intro H. apply filter_In in H. apply H.
Qed.

Lemma without_timer_NoDup (existing : option nat) (ts : list Timer) :
  NoDup (map tid ts) -> NoDup (map tid (without_timer existing ts)).
Proof.
  unfold without_timer. destruct existing as [[|id]|]; simpl; trivial.
  apply NoDup_map_filter.
Qed.

Lemma without_timer_drops (id : nat) (ts : list Timer) (t : Timer) :
  0 < id -> In t (without_timer (Some id) ts) -> tid t <> id.
Proof.
  unfold without_timer. destruct id as [|n]; [lia|]. simpl.
  intros _ H. apply filter_In in H. destruct H as [_ H].
  destruct (Nat.eqb_spec (tid t) (S n)); [discriminate|assumption].
Qed.

Lemma without_timer_keeps (existing : option nat) (ts : list Timer) (t : Timer) :
  In t ts -> existing <> Some (tid t) -> In t (without_timer existing ts).
Proof.
  unfold without_timer. destruct existing as [[|id]|]; simpl; trivial.
  intros Hin Hne. apply filter_In. split; [exact Hin|].
  destruct (Nat.eqb_spec (tid t) (S id)) as [E|E]; [|reflexivity].
  exfalso. apply Hne. rewrite E. reflexivity.
Qed.

Lemma onBlur_other (f : Field) (w : World) :
  timeoutId (other_field f) (onBlur f w) = timeoutId (other_field f) w.
Proof.
  destruct f; simpl; unfold onHomeserverBlur, onIdentityServerBlur,
    _waitThenInvoke.
  - destruct (_hsTimeoutId w) as [[|id]|]; reflexivity.
  - destruct (_isTimeoutId w) as [[|id]|]; reflexivity.
Qed.

Lemma timeoutId_cases (f g : Field) (w : World) :
  timeoutId g w = timeoutId f w \/ timeoutId g w = timeoutId (other_field f) w.
Proof.
  destruct f, g; simpl; auto.
Qed.

Lemma timers_owned_side (f g : Field) (w : World) :
  timers_owned_from f w -> timers_owned_from g w.
Proof.
  destruct f, g; trivial; intros (H1 & H2 & H3 & H4);
    (split; [exact H1|]); (split; [|split; [exact H3|]]).
  - eapply Forall_impl; [|exact H2]. simpl. intros t [H|H]; auto.
  - simpl in *. intros id Hi Hh. exact (H4 id Hh Hi).
  - eapply Forall_impl; [|exact H2]. simpl. intros t [H|H]; auto.
  - simpl in *. intros id Hh Hi. exact (H4 id Hi Hh).
Qed.

Lemma timers_owned_ext (w w' : World) :
  timers w' = timers w -> nextTimer w' = nextTimer w ->
  _hsTimeoutId w' = _hsTimeoutId w -> _isTimeoutId w' = _isTimeoutId w ->
  timers_owned w -> timers_owned w'.
Proof.
  unfold timers_owned, timers_owned_from. simpl.
  intros Ht Hn Hh Hi (H1 & H2 & H3 & H4).
  rewrite Ht, Hn, Hh, Hi.
  split; [exact H1|]. split; [exact H2|]. split; [|exact H4].
  intros g id Hg. apply (H3 g). destruct g; simpl in *; congruence.
Qed.

Lemma timers_owned_blur (f : Field) (w : World) :
  well_formed w -> timers_owned w -> timers_owned (onBlur f w).
Proof.
  intros (H0 & Hlt & _) Ho.
  apply (timers_owned_side f Homeserver).
  apply (timers_owned_side Homeserver f) in Ho.
  destruct Ho as (Hnd & Hown & Hrange & Hdist).
  pose proof (onBlur_world f w) as H. cbv zeta in H.
  destruct H as (Ht & Hn & Hid & _).
  pose proof (onBlur_other f w) as Hoth.
  unfold timers_owned_from. rewrite Ht, Hn, Hid, Hoth.
  split; [|split; [|split]].
  - rewrite map_app. simpl. apply NoDup_snoc.
    + apply without_timer_NoDup, Hnd.
    + intro Hin. apply in_map_iff in Hin. destruct Hin as (t & Et & Hin).
      apply without_timer_sub in Hin.
      rewrite Forall_forall in Hlt. specialize (Hlt t Hin). lia.
  - apply Forall_app. split.
    + apply Forall_forall. intros t Hin. right.
      pose proof (without_timer_sub _ _ _ Hin) as Hin'.
      rewrite Forall_forall in Hown. destruct (Hown t Hin') as [E|E];
        [|exact E].
      exfalso. rewrite E in Hin.
      apply (without_timer_drops (tid t) (timers w) t); [|exact Hin|reflexivity].
      apply (Hrange f). exact E.
    + constructor; [left; reflexivity|constructor].
  - intros g id Hg.
    destruct (timeoutId_cases f g (onBlur f w)) as [E|E];
      rewrite E in Hg.
    + rewrite Hid in Hg. injection Hg as <-. lia.
    + rewrite Hoth in Hg. specialize (Hrange _ _ Hg). lia.
  - intros id Hi. injection Hi as <-. intro Hc.
    specialize (Hrange _ _ Hc). lia.
Qed.

Lemma timers_owned_fired (id : nat) (w : World) :
  timers_owned w ->
  timers_owned
    (with_timers (filter (fun t => negb (Nat.eqb (tid t) id)) (timers w)) w).
Proof.
  intros (H1 & H2 & H3 & H4). unfold timers_owned, timers_owned_from.
  split; [|split; [|split]].
  - simpl. apply NoDup_map_filter. exact H1.
  - simpl. apply Forall_filter_keep. exact H2.
  - intros g i Hg. apply (H3 g). destruct g; exact Hg.
  - exact H4.
Qed.

Lemma timers_owned_started (hsU isU : string) (k : Awaiter) (w : World) :
  timers_owned w ->
  timers_owned (fst (validateAndApplyServer defaultConfig hsU isU k w)).
Proof.
  destruct (validateAndApplyServer_frame defaultConfig hsU isU k w)
    as (H1 & H2 & _).
  destruct (validateAndApplyServer_started hsU isU k w) as (H3 & H4 & _).
  apply timers_owned_ext; assumption.
Qed.

Lemma settle_timers (id : nat) (o : Settled) (w w' : World) :
  settle _t id o w = Some w' ->
  timers w' = timers w /\ nextTimer w' = nextTimer w
  /\ _hsTimeoutId w' = _hsTimeoutId w /\ _isTimeoutId w' = _isTimeoutId w.
Proof.
  unfold settle. destruct (find _ (inflight w)) as [c|]; [|discriminate].
  destruct o as [result|e|result thrown]; simpl; intros Hs;
    injection Hs as <-;
    destruct (awaiter c); simpl; try destruct (onAfterSubmit _);
    repeat split; reflexivity.
Qed.

Lemma timers_owned_step (ev : Event) (w w' : World) :
  well_formed w -> timers_owned w ->
  step defaultConfig _t ev w = Some w' -> timers_owned w'.
Proof.
  intros Hwf Hw Hs. destruct ev; simpl in Hs.
  - injection Hs as <-.
    apply (timers_owned_ext
             (componentWillReceiveProps defaultConfig newProps w));
      try reflexivity.
    unfold componentWillReceiveProps.
    destruct (_ && _); [exact Hw|apply timers_owned_started, Hw].
  - injection Hs as <-. apply (timers_owned_ext w); trivial.
  - injection Hs as <-. apply (timers_owned_blur Homeserver); assumption.
  - injection Hs as <-. apply (timers_owned_ext w); trivial.
  - injection Hs as <-. apply (timers_owned_blur IdentityServer); assumption.
  - injection Hs as <-.
    destruct (onSubmit_as_validateServer w)
      as (_ & _ & _ & H1 & H2 & H3 & H4 & _).
    apply (timers_owned_ext
             (fst (validateServer defaultConfig SubmitHandler w)));
      try assumption.
    apply timers_owned_started, Hw.
  - injection Hs as <-. apply (timers_owned_ext w); trivial.
  - unfold fire in Hs.
    destruct (find _ (timers w)) as [t|]; [|discriminate].
    destruct (Nat.leb (due t) (now w)); [|discriminate].
    injection Hs as <-. apply timers_owned_started, timers_owned_fired, Hw.
  - destruct (settle_timers id o w w' Hs) as (H1 & H2 & H3 & H4).
    apply (timers_owned_ext w); assumption.
Qed.

Lemma reachable_timers_owned (w : World) :
  reachable defaultConfig _t w -> timers_owned w.
Proof.
  induction 1 as [p|w ev w' Hr IH Hs].
  - repeat split; simpl; try constructor;
      try (destruct g; discriminate); discriminate.
  - eapply timers_owned_step; [|exact IH|exact Hs].
    eapply reachable_well_formed. exact Hr.
Qed.

(** X4: in every world the component can reach there are at most two pending
    timers, no two with the same handle, and each is the timer whose handle
    one of the two fields holds: a field has at most one timer pending,
    whatever the sequence of blurs. *)
Theorem at_most_one_timer_per_field (w : World)
    (Hreach : reachable defaultConfig _t w) :
  length (timers w) <= 2
  /\ NoDup (map tid (timers w))
  /\ Forall (fun t => exists f, timeoutId f w = Some (tid t)) (timers w).
Proof.
  destruct (reachable_timers_owned w Hreach) as (Hnd & Hown & _ & _).
  split; [|split; [exact Hnd|]].
  - assert (Hnd' : NoDup (map (fun t => Some (tid t)) (timers w))).
    { rewrite <- (map_map tid Some).
      apply NoDup_map_Some, Hnd. }
    assert (Hincl : incl (map (fun t => Some (tid t)) (timers w))
                         [_hsTimeoutId w; _isTimeoutId w]).
    { intros x Hx. apply in_map_iff in Hx. destruct Hx as (t & <- & Hin).
      rewrite Forall_forall in Hown. destruct (Hown t Hin) as [E|E];
        simpl in E; rewrite <- E; simpl; auto. }
    pose proof (NoDup_incl_length Hnd' Hincl) as Hlen.
    rewrite length_map in Hlen. exact Hlen.
  - eapply Forall_impl; [|exact Hown]. simpl.
    intros t [E|E]; [exists Homeserver|exists IdentityServer]; exact E.
Qed.

(** X5: the two fields debounce independently.  In a reachable world, a blur
    of one field leaves the pending timer of the other field pending, with
    its due time, and leaves the other field's handle as it is. *)
Theorem blur_keeps_other_timer (f : Field) (w : World) (t : Timer)
    (Hreach : reachable defaultConfig _t w)
    (Hpending : In t (timers w))
    (Hother : timeoutId (other_field f) w = Some (tid t)) :
  In t (timers (onBlur f w))
  /\ timeoutId (other_field f) (onBlur f w) = Some (tid t)
  /\ timeoutId f (onBlur f w) <> Some (tid t).
Proof.
  pose proof (reachable_timers_owned w Hreach) as Ho.
  apply (timers_owned_side Homeserver f) in Ho.
  destruct Ho as (_ & _ & Hrange & Hdist).
  pose proof (onBlur_world f w) as H. cbv zeta in H.
  destruct H as (Ht & _ & Hid & _).
  split; [|split].
  - rewrite Ht. apply in_or_app. left.
    apply without_timer_keeps; [exact Hpending|].
    intro E. exact (Hdist _ E Hother).
  - rewrite onBlur_other. exact Hother.
  - rewrite Hid. intro E. injection E as E.
    specialize (Hrange _ _ Hother). lia.
Qed.

(** ** The debounced validation *)

Lemma onBlur_calls (f : Field) (w : World) :
  validate_calls (trace (onBlur f w)) = validate_calls (trace w)
  /\ owner_calls (trace (onBlur f w)) = owner_calls (trace w).
Proof.
  pose proof (onBlur_world f w) as H. cbv zeta in H.
  destruct H as (_ & _ & _ & _ & _ & _ & _ & _ & H).
  rewrite H, !validate_calls_app, !owner_calls_app.
  destruct (truthy_id _); [destruct (timeoutId _ _)|]; simpl;
    rewrite ?app_nil_r; split; reflexivity.
Qed.

Lemma onChange_world (g : Field) (v : string) (w : World) :
  state (onChange g v w) = edited g v (state w)
  /\ timers (onChange g v w) = timers w
  /\ now (onChange g v w) = now w
  /\ nextCall (onChange g v w) = nextCall w
  /\ validate_calls (trace (onChange g v w)) = validate_calls (trace w)
  /\ owner_calls (trace (onChange g v w)) = owner_calls (trace w).
Proof.
  destruct g; simpl; rewrite validate_calls_app, owner_calls_app; simpl;
    rewrite !app_nil_r; repeat split; reflexivity.
Qed.

Lemma validateAndApplyServer_owner
    (hsU isU : string) (k : Awaiter) (w : World) :
  owner_calls (trace (fst (validateAndApplyServer defaultConfig hsU isU k w))) =
  owner_calls (trace w) ++
  (if is_default defaultConfig hsU isU then [defaultConfig] else []).
Proof.
  rewrite validateAndApplyServer_world.
  destruct (is_default defaultConfig hsU isU); simpl;
    rewrite <- ?app_assoc, owner_calls_app; simpl; reflexivity.
Qed.

(** X6: the timer callback validates the URLs the state holds when the timer
    fires, not those it held at the blur.  After a blur of a field and a
    change of either field, the timer of the blur fires once the delay has
    run out and validates the edited URLs: one discovery call on them when
    they are custom, the default configuration handed to the owner when they
    are the default ones. *)
Theorem debounced_validation_reads_latest_edit
    (f g : Field) (v : string) (w : World) (d : nat)
    (Hreach : reachable defaultConfig _t w)
    (Hd : delayTimeMs (props w) <= d) :
  let s' := edited g v (state w) in
  exists w3,
    fire defaultConfig (nextTimer w) (advance d (onChange g v (onBlur f w)))
      = Some w3
    /\ validate_calls (trace w3) =
         validate_calls (trace w) ++
         (if is_default defaultConfig (hsUrl s') (isUrl s') then []
          else [(nextCall w, hsUrl s', isUrl s')])
    /\ owner_calls (trace w3) =
         owner_calls (trace w) ++
         (if is_default defaultConfig (hsUrl s') (isUrl s')
          then [defaultConfig] else []).
Proof.
  intros s'.
  destruct (reachable_well_formed defaultConfig _t w Hreach) as (_ & Hlt & _).
  pose proof (onBlur_world f w) as H. cbv zeta in H.
  destruct H as (Ht1 & _ & _ & Hs1 & _ & Hnow1 & Hc1 & _ & _).
  destruct (onBlur_calls f w) as (Hv1 & Ho1).
  destruct (onChange_world g v (onBlur f w))
    as (Hs2 & Ht2 & Hnow2 & Hc2 & Hv2 & Ho2).
  rewrite Hs1 in Hs2. fold s' in Hs2.
  rewrite Ht1 in Ht2. rewrite Hnow1 in Hnow2. rewrite Hc1 in Hc2.
  rewrite Hv1 in Hv2. rewrite Ho1 in Ho2.
  set (w2 := onChange g v (onBlur f w)) in *.
  assert (Hk : Forall (fun t => tid t < nextTimer w)
                      (without_timer (timeoutId f w) (timers w)))
    by (apply without_timer_fresh; exact Hlt).
  unfold fire. change (timers (advance d w2)) with (timers w2).
  rewrite Ht2, (find_fresh tid) by exact Hk.
  simpl find. rewrite Nat.eqb_refl.
  change (now (advance d w2)) with (now w2 + d). simpl due.
  rewrite Hnow2.
  destruct (Nat.leb_spec (now w + delayTimeMs (props w)) (now w + d)); [|lia].
  eexists. split; [reflexivity|].
  set (w0 := with_timers _ (advance d w2)).
  assert (Hs0 : state w0 = s') by exact Hs2.
  assert (Hc0 : nextCall w0 = nextCall w) by exact Hc2.
  assert (Hv0 : validate_calls (trace w0) = validate_calls (trace w))
    by exact Hv2.
  assert (Ho0 : owner_calls (trace w0) = owner_calls (trace w)) by exact Ho2.
  unfold validateServer. rewrite Hs0.
  destruct (validateAndApplyServer_frame defaultConfig
              (hsUrl s') (isUrl s') Dropped w0)
    as (_ & _ & _ & _ & Hv & _).
  rewrite Hv, validateAndApplyServer_owner, Hv0, Ho0, Hc0.
  split; reflexivity.
Qed.

(** ** What the collaborators are told *)

Lemma onSubmit_calls (w : World) :
  validate_calls (trace (onSubmit defaultConfig w)) =
    validate_calls (trace w) ++
    (if is_default defaultConfig (hsUrl (state w)) (isUrl (state w)) then []
     else [(nextCall w, hsUrl (state w), isUrl (state w))])
  /\ owner_calls (trace (onSubmit defaultConfig w)) =
       owner_calls (trace w) ++
       (if is_default defaultConfig (hsUrl (state w)) (isUrl (state w))
        then [defaultConfig] else []).
Proof.
  rewrite onSubmit_world.
  destruct (is_default defaultConfig (hsUrl (state w)) (isUrl (state w))).
  - unfold onSubmit_resume. destruct (onAfterSubmit _); simpl;
      rewrite <- ?app_assoc, validate_calls_app, owner_calls_app; simpl;
      rewrite ?app_nil_r; split; reflexivity.
  - simpl. rewrite <- ?app_assoc, validate_calls_app, owner_calls_app; simpl.
    rewrite ?app_nil_r. split; reflexivity.
Qed.

(** What one turn of the event loop adds to the two call traces. *)
Lemma step_calls (ev : Event) (w w' : World) :
  step defaultConfig _t ev w = Some w' ->
  exists vs os,
    validate_calls (trace w') = validate_calls (trace w) ++ vs
    /\ owner_calls (trace w') = owner_calls (trace w) ++ os
    /\ (vs = []
        \/ exists hsU isU, vs = [(nextCall w, hsU, isU)]
                           /\ is_default defaultConfig hsU isU = false
                           /\ os = [])
    /\ match ev with
       | Settle _ (Resolved r) | Settle _ (OwnerThrew r _) => os = [r]
       | Settle _ (Rejected _) | HomeserverChange _ | IdentityServerChange _
       | HomeserverBlur | IdentityServerBlur | Tick _ => os = []
       | ReceiveProps _ | Submit | Fire _ => os = [] \/ os = [defaultConfig]
       end.
Proof.
  intros Hs. destruct ev; simpl in Hs.
  - injection Hs as <-.
    change (trace (with_props newProps ?x)) with (trace x).
    unfold componentWillReceiveProps. destruct (_ && _).
    + exists [], []. rewrite !app_nil_r. auto.
    + destruct (validateAndApplyServer_frame defaultConfig
                  (ValidatedServerConfig.hsUrl (serverConfig newProps))
                  (ValidatedServerConfig.isUrl (serverConfig newProps))
                  Dropped w) as (_ & _ & _ & _ & Hv & _).
      eexists. eexists. split; [exact Hv|].
      split; [apply validateAndApplyServer_owner|].
      destruct (is_default defaultConfig _ _) eqn:Hd; split; auto.
      right. eexists. eexists. split; [reflexivity|]. auto.
  - injection Hs as <-. exists [], [].
    destruct (onChange_world Homeserver v w) as (_ & _ & _ & _ & Hv & Ho).
    simpl in Hv, Ho. rewrite !app_nil_r. auto.
  - injection Hs as <-. exists [], [].
    destruct (onBlur_calls Homeserver w) as (Hv & Ho).
    simpl in Hv, Ho. rewrite !app_nil_r. auto.
  - injection Hs as <-. exists [], [].
    destruct (onChange_world IdentityServer v w) as (_ & _ & _ & _ & Hv & Ho).
    simpl in Hv, Ho. rewrite !app_nil_r. auto.
  - injection Hs as <-. exists [], [].
    destruct (onBlur_calls IdentityServer w) as (Hv & Ho).
    simpl in Hv, Ho. rewrite !app_nil_r. auto.
  - injection Hs as <-. destruct (onSubmit_calls w) as (Hv & Ho).
    eexists. eexists. split; [exact Hv|]. split; [exact Ho|].
    destruct (is_default defaultConfig _ _) eqn:Hd; split; auto.
    right. eexists. eexists. split; [reflexivity|]. auto.
  - injection Hs as <-. exists [], []. rewrite !app_nil_r. auto.
  - unfold fire in Hs.
    destruct (find _ (timers w)) as [t|]; [|discriminate].
    destruct (Nat.leb (due t) (now w)); [|discriminate].
    injection Hs as <-. unfold validateServer.
    set (w0 := with_timers _ w).
    destruct (validateAndApplyServer_frame defaultConfig
                (hsUrl (state w0)) (isUrl (state w0)) Dropped w0)
      as (_ & _ & _ & _ & Hv & _).
    pose proof (validateAndApplyServer_owner
                  (hsUrl (state w0)) (isUrl (state w0)) Dropped w0) as Ho.
    change (trace w0) with (trace w) in Hv, Ho.
    eexists. eexists. split; [exact Hv|]. split; [exact Ho|].
    destruct (is_default defaultConfig _ _) eqn:Hd; split; auto.
    right. eexists. eexists. split; [reflexivity|]. auto.
  - unfold settle in Hs.
    destruct (find _ (inflight w)) as [c|] eqn:Hf; [|discriminate].
    destruct (settle_outcome _t id o w c Hf)
      as (w3 & E & _ & _ & _ & _ & Ho & Hv & _).
    unfold settle in E. rewrite Hf in E. rewrite E in Hs.
    injection Hs as <-. exists [], (told_owner o).
    rewrite Hv, app_nil_r. split; [reflexivity|]. split; [exact Ho|].
    split; [auto|]. destruct o; reflexivity.
Qed.

(** X7: the discovery collaborator is never asked about the default
    configuration: in every world the component can reach, each discovery
    call made so far was made on URLs that are not both the default ones. *)
Theorem never_validates_default_urls (w : World)
    (Hreach : reachable defaultConfig _t w) :
  Forall (fun c => is_default defaultConfig (snd (fst c)) (snd c) = false)
         (validate_calls (trace w)).
Proof.
  induction Hreach as [p|w ev w' _ IH Hs]; [constructor|].
  destruct (step_calls ev w w' Hs) as (vs & os & Hv & _ & Hvs & _).
  rewrite Hv. apply Forall_app. split; [exact IH|].
  destruct Hvs as [->|(hsU & isU & -> & Hd & _)]; constructor;
    [exact Hd|constructor].
Qed.

(** X8: what one turn of the event loop tells the owner.  A fulfilled
    discovery call hands [onServerConfigChange] its result, once, whether
    that call returns or throws; a rejected
    call, a field change, a blur and the passing of time hand it nothing; a
    new configuration from the owner, a submit and a timer firing hand it
    nothing or the default configuration, once, and nothing when they start a
    discovery call. *)
Theorem owner_told_default_or_result (ev : Event) (w w' : World)
    (Hstep : step defaultConfig _t ev w = Some w') :
  exists os,
    owner_calls (trace w') = owner_calls (trace w) ++ os
    /\ match ev with
       | Settle _ (Resolved r) | Settle _ (OwnerThrew r _) => os = [r]
       | Settle _ (Rejected _) | HomeserverChange _ | IdentityServerChange _
       | HomeserverBlur | IdentityServerBlur | Tick _ => os = []
       | ReceiveProps _ | Submit | Fire _ => os = [] \/ os = [defaultConfig]
       end
    /\ (validate_calls (trace w') <> validate_calls (trace w) -> os = []).
Proof.
  destruct (step_calls ev w w' Hstep) as (vs & os & Hv & Ho & Hvs & Hos).
  exists os. split; [exact Ho|]. split; [exact Hos|].
  intros Hne. destruct Hvs as [->|(hsU & isU & _ & _ & E)]; [|exact E].
  exfalso. apply Hne. rewrite Hv. apply app_nil_r.
Qed.

(** ** A new configuration from the owner *)

(** X9: when the owner hands in a configuration whose URLs are those the
    state already holds, only [this.props] is replaced: nothing is validated
    and an error on display or a busy form stays as it is.  When the URLs
    differ from the state and are not both the default ones, they are adopted
    into the state, the form becomes busy with no error, exactly one
    discovery call is made on them and nobody awaits its promise; the owner
    is not called back in that turn. *)
Theorem receiveProps_same_or_custom (newProps : Props) (w : World) :
  let hsN := ValidatedServerConfig.hsUrl (serverConfig newProps) in
  let isN := ValidatedServerConfig.isUrl (serverConfig newProps) in
  (hsN = hsUrl (state w) /\ isN = isUrl (state w) ->
     step defaultConfig _t (ReceiveProps newProps) w
     = Some (with_props newProps w))
  /\ (~ (hsN = hsUrl (state w) /\ isN = isUrl (state w)) ->
      is_default defaultConfig hsN isN = false ->
      exists w',
        step defaultConfig _t (ReceiveProps newProps) w = Some w'
        /\ props w' = newProps
        /\ state w' = {| busy := true; errorText := "";
                         hsUrl := hsN; isUrl := isN |}
        /\ validate_calls (trace w') =
             validate_calls (trace w) ++ [(nextCall w, hsN, isN)]
        /\ owner_calls (trace w') = owner_calls (trace w)
        /\ inflight w' = inflight w ++
             [{| pid := nextCall w; call_hsUrl := hsN; call_isUrl := isN;
                 awaiter := Dropped |}]).
Proof.
  intros hsN isN.
  pose proof (componentWillReceiveProps_cases defaultConfig newProps w) as H.
  cbv zeta in H. fold hsN isN in H. destruct H as (Hsame & Hcustom & _).
  split.
  - intros Heq. simpl. rewrite (Hsame Heq). reflexivity.
  - intros Hne Hd. eexists. split; [reflexivity|].
    destruct (Hcustom Hne Hd) as (Hs & Hv).
    split; [reflexivity|]. split; [exact Hs|]. split; [exact Hv|].
    assert (E : componentWillReceiveProps defaultConfig newProps w =
                fst (validateAndApplyServer defaultConfig hsN isN Dropped w)).
    { unfold componentWillReceiveProps. fold hsN isN.
      destruct (String.eqb hsN (hsUrl (state w)) &&
                String.eqb isN (isUrl (state w))) eqn:Eb; [|reflexivity].
      exfalso. apply Hne. apply andb_true_iff in Eb.
      rewrite !String.eqb_eq in Eb. exact Eb. }
    change (trace (with_props newProps ?x)) with (trace x).
    change (inflight (with_props newProps ?x)) with (inflight x).
    rewrite E.
    destruct (validateAndApplyServer_suspends defaultConfig hsN isN Dropped w Hd)
      as (Hi & _ & _ & Ho & _).
    split; [exact Ho|exact Hi].
Qed.

(** ** What is rendered *)




End Further.

(** * Debounce over arbitrary runs *)

Section Debounce.

Variable defaultConfig : ValidatedServerConfig.t.
Variable _t : string -> string.

(** ** What one turn does to the clock and the timers *)












(** ** A pending timer stays pending until it is cancelled or due *)







(** ** Two blurs of one field *)


End Debounce.

(** * Further concrete runs *)

Lemma busy_means_call_in_flight_witness :
  exists w,
    run matrix_org english
        [HomeserverChange "https://custom.example"; HomeserverBlur; Fire 1]
        (constructor (props_of matrix_org 0 false)) = Some w
    /\ reachable matrix_org english w
    /\ busy (state w) = true
    /\ inflight w <> [].
Proof.
  eexists. split; [reflexivity|].
  match goal with |- reachable _ _ ?w /\ _ =>
    assert (Hr : reachable matrix_org english w)
  end.
  { apply (run_reachable matrix_org english
             [HomeserverChange "https://custom.example"; HomeserverBlur; Fire 1]
             (constructor (props_of matrix_org 0 false)));
      [apply reach_init|reflexivity]. }
  split; [exact Hr|]. split; [reflexivity|].
  exact (proj1 (busy_means_call_in_flight matrix_org english _ Hr eq_refl)).
Defined.

Lemma shown_error_was_logged_witness :
  exists w,
    run matrix_org english [Submit; Settle 0 (Rejected bad_server)]
        (constructor (props_of custom_example 0 false)) = Some w
    /\ reachable matrix_org english w
    /\ errorText (state w) <> ""
    /\ exists e, In e (logged_errors (trace w))
                 /\ errorText (state w) = failure_message english e.
Proof.
  eexists. split; [reflexivity|].
  match goal with |- reachable _ _ ?w /\ _ =>
    assert (Hr : reachable matrix_org english w)
  end.
  { apply (run_reachable matrix_org english
             [Submit; Settle 0 (Rejected bad_server)]
             (constructor (props_of custom_example 0 false)));
      [apply reach_init|reflexivity]. }
  split; [exact Hr|].
  match goal with |- ?P /\ _ => assert (Hne : P) by discriminate end.
  split; [exact Hne|].
  exact (shown_error_was_logged matrix_org english _ Hr Hne).
Defined.

Lemma validation_keeps_edits_witness :
  step matrix_org english Submit (constructor (props_of custom_example 0 false))
  = Some (onSubmit matrix_org (constructor (props_of custom_example 0 false)))
  /\ edits_urls Submit = false
  /\ hsUrl (state (onSubmit matrix_org
                     (constructor (props_of custom_example 0 false))))
     = "https://custom.example".
Proof.
  split; [reflexivity|]. split; [reflexivity|].
  exact (proj1 (validation_keeps_edits matrix_org english Submit
                  (constructor (props_of custom_example 0 false)) _
                  eq_refl eq_refl)).
Defined.

Lemma at_most_one_timer_per_field_witness :
  exists w,
    run matrix_org english
        [HomeserverBlur; IdentityServerBlur; HomeserverBlur;
         IdentityServerBlur; HomeserverBlur]
        (constructor (props_of custom_example 100 false)) = Some w
    /\ reachable matrix_org english w
    /\ length (timers w) <= 2.
Proof.
  eexists. split; [reflexivity|].
  match goal with |- reachable _ _ ?w /\ _ =>
    assert (Hr : reachable matrix_org english w)
  end.
  { apply (run_reachable matrix_org english
             [HomeserverBlur; IdentityServerBlur; HomeserverBlur;
              IdentityServerBlur; HomeserverBlur]
             (constructor (props_of custom_example 100 false)));
      [apply reach_init|reflexivity]. }
  split; [exact Hr|].
  exact (proj1 (at_most_one_timer_per_field matrix_org english _ Hr)).
Defined.

Lemma blur_keeps_other_timer_witness :
  exists w,
    run matrix_org english [IdentityServerBlur]
        (constructor (props_of custom_example 100 false)) = Some w
    /\ reachable matrix_org english w
    /\ In {| tid := 1; due := 100 |} (timers w)
    /\ timeoutId (other_field Homeserver) w = Some 1
    /\ In {| tid := 1; due := 100 |} (timers (onBlur Homeserver w)).
Proof.
  eexists. split; [reflexivity|].
  match goal with |- reachable _ _ ?w /\ _ =>
    assert (Hr : reachable matrix_org english w)
  end.
  { apply (run_reachable matrix_org english [IdentityServerBlur]
             (constructor (props_of custom_example 100 false)));
      [apply reach_init|reflexivity]. }
  split; [exact Hr|].
  match goal with |- ?P /\ _ => assert (Hin : P) by (left; reflexivity) end.
  split; [exact Hin|]. split; [reflexivity|].
  exact (proj1 (blur_keeps_other_timer matrix_org english Homeserver _
                  {| tid := 1; due := 100 |} Hr Hin eq_refl)).
Defined.

Lemma debounced_validation_reads_latest_edit_witness :
  reachable matrix_org english (constructor (props_of matrix_org 100 false))
  /\ delayTimeMs (props (constructor (props_of matrix_org 100 false))) <= 100
  /\ exists w3,
       fire matrix_org 1
            (advance 100
               (onChange Homeserver "https://custom.example"
                  (onBlur Homeserver
                     (constructor (props_of matrix_org 100 false)))))
         = Some w3
       /\ validate_calls (trace w3) =
            [(0, "https://custom.example", "https://vector.im")].
Proof.
  assert (Hr : reachable matrix_org english
                 (constructor (props_of matrix_org 100 false)))
    by apply reach_init.
  assert (Hd : delayTimeMs (props (constructor (props_of matrix_org 100 false)))
               <= 100) by (simpl; lia).
  split; [exact Hr|]. split; [exact Hd|].
  destruct (debounced_validation_reads_latest_edit matrix_org english
              Homeserver Homeserver "https://custom.example"
              (constructor (props_of matrix_org 100 false)) 100 Hr Hd)
    as (w3 & E & Hv & _).
  exists w3. split; [exact E|exact Hv].
Defined.

Lemma never_validates_default_urls_witness :
  exists w,
    run matrix_org english
        [Submit; HomeserverChange "https://custom.example"; Submit]
        (constructor (props_of matrix_org 0 false)) = Some w
    /\ reachable matrix_org english w
    /\ validate_calls (trace w)
       = [(0, "https://custom.example", "https://vector.im")]
    /\ Forall (fun c => is_default matrix_org (snd (fst c)) (snd c) = false)
              (validate_calls (trace w)).
Proof.
  eexists. split; [reflexivity|].
  match goal with |- reachable _ _ ?w /\ _ =>
    assert (Hr : reachable matrix_org english w)
  end.
  { apply (run_reachable matrix_org english
             [Submit; HomeserverChange "https://custom.example"; Submit]
             (constructor (props_of matrix_org 0 false)));
      [apply reach_init|reflexivity]. }
  split; [exact Hr|]. split; [reflexivity|].
  exact (never_validates_default_urls matrix_org english _ Hr).
Defined.

Lemma owner_told_default_or_result_witness :
  exists w',
    step matrix_org english (Settle 0 (Resolved custom_example))
         (onSubmit matrix_org (constructor (props_of custom_example 0 false)))
    = Some w'
    /\ exists os,
         owner_calls (trace w') =
           owner_calls (trace (onSubmit matrix_org
                                 (constructor (props_of custom_example 0 false))))
           ++ os
         /\ os = [custom_example].
Proof.
  eexists. split; [reflexivity|].
  destruct (owner_told_default_or_result matrix_org english
              (Settle 0 (Resolved custom_example))
              (onSubmit matrix_org (constructor (props_of custom_example 0 false)))
              _ eq_refl) as (os & Ho & Hos & _).
  exists os. split; [exact Ho|exact Hos].
Defined.

Lemma receiveProps_same_or_custom_witness :
  ~ (ValidatedServerConfig.hsUrl (serverConfig (props_of custom_example 0 false))
     = hsUrl (state (constructor (props_of matrix_org 0 false)))
     /\ ValidatedServerConfig.isUrl (serverConfig (props_of custom_example 0 false))
        = isUrl (state (constructor (props_of matrix_org 0 false))))
  /\ is_default matrix_org "https://custom.example" "https://vector.im" = false
  /\ exists w',
       step matrix_org english (ReceiveProps (props_of custom_example 0 false))
            (constructor (props_of matrix_org 0 false)) = Some w'
       /\ state w' = {| busy := true; errorText := "";
                        hsUrl := "https://custom.example";
                        isUrl := "https://vector.im" |}.
Proof.
  match goal with |- ?P /\ _ =>
    assert (Hne : P) by (intros [H _]; discriminate H)
  end.
  split; [exact Hne|]. split; [reflexivity|].
  destruct (proj2 (receiveProps_same_or_custom matrix_org english
                     (props_of custom_example 0 false)
                     (constructor (props_of matrix_org 0 false)))
                  Hne eq_refl)
    as (w' & E & _ & Hs & _).
  exists w'. split; [exact E|exact Hs].
Defined.



